(** * Interrupt-driven UART driver for the ATmega (iuart.c / iuart.h)

    A shallow embedding of the transmit engine ([UART0_Putchar] and the
    transmit-complete interrupt [USART_TX_vect]) and of the line-editing
    reader ([uart_getchar]), followed by the properties of the driver's
    specification.

    Conventions.
    - A [char]/[uint8_t] is the [Z] of its 8-bit pattern, in [0, 256).
    - An [int] is 16 bits wide on the AVR; the only arithmetic done on
      ints is [++] on the two ring indices, written out with [int16].
    - Arrays are lists; [a[i] = x] is stdpp's [<[i:=x]> a] (which leaves
      the list alone out of range, where C has no defined behaviour) and a
      read [a[i]] is [slot a i] (0 out of range).
    - Global and function-static variables are fields of explicit state
      records that every operation takes and returns. *)

From Stdlib Require Import ZArith Lia List.
From stdpp Require Import base list.

Local Open Scope Z_scope.

(** ** Constants *)

(** iuart.h *)
Definition UART_BUFFER_SIZE : Z := 256.
Definition RX_BUFSIZE : nat := 80.

(** avr-libc <stdio.h>: [#define EOF (-1)], [#define _FDEV_ERR (-1)],
    [#define _FDEV_EOF (-2)]. *)
Definition EOF : Z := -1.
Definition _FDEV_ERR : Z := -1.
Definition _FDEV_EOF : Z := -2.

(** avr-libc <avr/io.h>, ATmega328P: bit numbers in UCSR0A and UCSR0B. *)
Definition RXC0 : Z := 7.
Definition FE0 : Z := 4.
Definition DOR0 : Z := 3.
Definition TXCIE0 : Z := 6.

Definition _BV (bit : Z) : Z := Z.shiftl 1 bit.

(** Value of a 16-bit two's complement [int] after an arithmetic result. *)
Definition int16 (z : Z) : Z := (z + 32768) mod 65536 - 32768.

(** Array read [a[i]]. *)
Definition slot (a : list Z) (i : Z) : Z := default 0 (a !! Z.to_nat i).

(** ** Shared transport state (globals of iuart.h plus the two registers
       the transmit path touches) *)

Record uart := mkUart {
  UartBuffer : list Z;             (* char UartBuffer[UART_BUFFER_SIZE] *)
  UartBufferNextByteToSend : Z;    (* tail: position of next byte to send *)
  UartBufferNextFree : Z;          (* head: position of next free byte *)
  UartSendingInProgress : Z;       (* 1 = sending is in progress *)
  UCSR0B : Z;                      (* control register B *)
  UDR0 : list Z                    (* every byte stored to UDR0, oldest first *)
}.

Definition set_UartBuffer (v : list Z) (s : uart) : uart :=
  mkUart v (UartBufferNextByteToSend s) (UartBufferNextFree s)
         (UartSendingInProgress s) (UCSR0B s) (UDR0 s).
Definition set_NextByteToSend (v : Z) (s : uart) : uart :=
  mkUart (UartBuffer s) v (UartBufferNextFree s)
         (UartSendingInProgress s) (UCSR0B s) (UDR0 s).
Definition set_NextFree (v : Z) (s : uart) : uart :=
  mkUart (UartBuffer s) (UartBufferNextByteToSend s) v
         (UartSendingInProgress s) (UCSR0B s) (UDR0 s).
Definition set_SendingInProgress (v : Z) (s : uart) : uart :=
  mkUart (UartBuffer s) (UartBufferNextByteToSend s) (UartBufferNextFree s)
         v (UCSR0B s) (UDR0 s).
Definition set_UCSR0B (v : Z) (s : uart) : uart :=
  mkUart (UartBuffer s) (UartBufferNextByteToSend s) (UartBufferNextFree s)
         (UartSendingInProgress s) v (UDR0 s).
(** [UDR0 = c]: the byte goes out on the wire. *)
Definition write_UDR0 (c : Z) (s : uart) : uart :=
  mkUart (UartBuffer s) (UartBufferNextByteToSend s) (UartBufferNextFree s)
         (UartSendingInProgress s) (UCSR0B s) (UDR0 s ++ [c]).

(** State left by [init_iuart] on a freshly reset device: zeroed globals,
    TXEN0|RXEN0 then RXCIE0|TXCIE0 or-ed into UCSR0B. *)
Definition init_iuart : uart :=
  {| UartBuffer := replicate 256 0;
     UartBufferNextByteToSend := 0;
     UartBufferNextFree := 0;
     UartSendingInProgress := 0;
     UCSR0B := Z.lor (Z.lor 0 (Z.lor (_BV 3) (_BV 4))) (Z.lor (_BV 7) (_BV TXCIE0));
     UDR0 := [] |}.

(** ** Transmit engine *)

(** Lines 66-101 of iuart.c: everything in [UART0_Putchar] after the
    newline test. *)
Definition UART0_Putchar_body (c : Z) (s : uart) : Z * uart :=
  if UartSendingInProgress s =? 0 then
    (* prime the pump *)
    (0, write_UDR0 c (set_SendingInProgress 1 s))
  else
    (* UCSR0B &= ~_BV(TXCIE0) *)
    let s := set_UCSR0B (Z.land (UCSR0B s) (Z.lnot (_BV TXCIE0))) s in
    (* UartBuffer[UartBufferNextFree] = c *)
    let s := set_UartBuffer
               (<[Z.to_nat (UartBufferNextFree s) := c]> (UartBuffer s)) s in
    (* UartBufferNextFree_last = UartBufferNextFree++ *)
    let UartBufferNextFree_last := UartBufferNextFree s in
    let s := set_NextFree (int16 (UartBufferNextFree s + 1)) s in
    (* wrap-around *)
    let s := if UartBufferNextFree s =? UART_BUFFER_SIZE
             then set_NextFree 0 s else s in
    (* buffer full: bump back the index, return EOF *)
    let '(ReturnStatus, s) :=
      if UartBufferNextFree s =? UartBufferNextByteToSend s
      then (EOF, set_NextFree UartBufferNextFree_last s)
      else (0, s) in
    (* UCSR0B |= _BV(TXCIE0) *)
    (ReturnStatus, set_UCSR0B (Z.lor (UCSR0B s) (_BV TXCIE0)) s).

(** [USART_TX_vect]: the transmit-complete interrupt handler. *)
Definition USART_TX_vect (s : uart) : uart :=
  if UartBufferNextByteToSend s =? UartBufferNextFree s then
    set_SendingInProgress 0 s
  else
    let s := set_SendingInProgress 1 s in
    let s := write_UDR0 (slot (UartBuffer s) (UartBufferNextByteToSend s)) s in
    let s := set_NextByteToSend (int16 (UartBufferNextByteToSend s + 1)) s in
    if UartBufferNextByteToSend s =? UART_BUFFER_SIZE
    then set_NextByteToSend 0 s else s.

(** [UART0_Putchar], with [irqs] transmit-complete interrupts serviced
    between the return of the nested carriage-return call (line 62, which
    leaves TXCIE0 set) and the test of line 66.  The nested call is made
    with ['\r'], which is not ['\n'], so it is the body alone; its status
    is not looked at. *)
Definition UART0_Putchar_irq (irqs : nat) (c : Z) (s : uart) : Z * uart :=
  let s :=
    if c =? 10
    then Nat.iter irqs USART_TX_vect (snd (UART0_Putchar_body 13 s))
    else s in
  UART0_Putchar_body c s.

(** [UART0_Putchar] running without being interrupted. *)
Definition UART0_Putchar (c : Z) (s : uart) : Z * uart :=
  UART0_Putchar_irq 0 c s.

(** A run of [UART0_Putchar] calls with no interrupt: the statuses
    returned, in call order, and the final state. *)
Fixpoint Putchar_seq (cs : list Z) (s : uart) : list Z * uart :=
  match cs with
  | [] => ([], s)
  | c :: cs' =>
      let '(r, s1) := UART0_Putchar c s in
      let '(rs, s2) := Putchar_seq cs' s1 in
      (r :: rs, s2)
  end.

(** Events of the transmit side: a caller's [UART0_Putchar c], or the
    hardware raising transmit-complete between two calls. *)
Inductive tx_event :=
| EvPutchar (irqs : nat) (c : Z)   (* irqs: interrupts serviced inside the
                                      call, after its nested call *)
| EvTxComplete.

Definition tx_step (e : tx_event) (s : uart) : uart :=
  match e with
  | EvPutchar irqs c => snd (UART0_Putchar_irq irqs c s)
  | EvTxComplete => USART_TX_vect s
  end.

(** States reached from [init_iuart] when the interrupt is serviced
    between calls, or inside a call right after its nested call.  Each of
    them is a state the program can be in; they are not all of them, since
    the interrupt can also be serviced between two statements of a call
    (see [tx_reachable_fine] below, which has them all). *)
Inductive tx_reachable : uart -> Prop :=
| reach_init : tx_reachable init_iuart
| reach_step e s : tx_reachable s -> tx_reachable (tx_step e s).

(** *** Statement by statement

    The transmit-complete interrupt is enabled whenever TXCIE0 is set,
    that is everywhere in [UART0_Putchar] but between lines 76 and 96.
    In particular it can be serviced between the test of the flag at
    line 66 and the arm that the test has chosen. *)

(** Lines 75-96: the else arm of line 73, with the status it leaves in
    [ReturnStatus].  It runs with TXCIE0 masked. *)
Definition Putchar_append (c : Z) (s : uart) : Z * uart :=
  (* UCSR0B &= ~_BV(TXCIE0) *)
  let s := set_UCSR0B (Z.land (UCSR0B s) (Z.lnot (_BV TXCIE0))) s in
  (* UartBuffer[UartBufferNextFree] = c *)
  let s := set_UartBuffer
             (<[Z.to_nat (UartBufferNextFree s) := c]> (UartBuffer s)) s in
  (* UartBufferNextFree_last = UartBufferNextFree++ *)
  let UartBufferNextFree_last := UartBufferNextFree s in
  let s := set_NextFree (int16 (UartBufferNextFree s + 1)) s in
  (* wrap-around *)
  let s := if UartBufferNextFree s =? UART_BUFFER_SIZE
           then set_NextFree 0 s else s in
  (* buffer full: bump back the index, return EOF *)
  let '(ReturnStatus, s) :=
    if UartBufferNextFree s =? UartBufferNextByteToSend s
    then (EOF, set_NextFree UartBufferNextFree_last s)
    else (0, s) in
  (* UCSR0B |= _BV(TXCIE0) *)
  (ReturnStatus, set_UCSR0B (Z.lor (UCSR0B s) (_BV TXCIE0)) s).

(** Where the caller stands in [UART0_Putchar].  [after] is the byte of
    the outer call still to be sent when the call in progress is the
    nested one of line 62. *)
Inductive tx_pc :=
| Outside                               (* no call in progress *)
| AtTest (c : Z) (after : option Z)     (* line 66: about to read the flag *)
| AtFlag (c : Z) (after : option Z)     (* flag read as 0: line 69 is next *)
| AtSend (c : Z) (after : option Z)     (* line 69 done: line 71 is next *)
| AtAppend (c : Z) (after : option Z).  (* flag read as set: lines 76-96
                                           are next *)

(** Where to go on at the end of a call: back in the outer call at line
    66, or out. *)
Definition resume (after : option Z) : tx_pc :=
  match after with
  | Some c => AtTest c None
  | None => Outside
  end.

Inductive tx_action :=
| ActCall (c : Z)   (* the caller enters UART0_Putchar(c) *)
| ActRun            (* the caller executes its next statement *)
| ActIrq.           (* the transmit-complete interrupt is serviced, if
                       TXCIE0 is set *)

Definition fine_step (a : tx_action) (cfg : uart * tx_pc) : uart * tx_pc :=
  let '(s, p) := cfg in
  match a with
  | ActIrq =>
      if Z.testbit (UCSR0B s) TXCIE0 then (USART_TX_vect s, p) else cfg
  | ActCall c =>
      match p with
      | Outside => (s, if c =? 10 then AtTest 13 (Some c) else AtTest c None)
      | _ => cfg
      end
  | ActRun =>
      match p with
      | Outside => cfg
      | AtTest c k =>
          (s, if UartSendingInProgress s =? 0 then AtFlag c k
              else AtAppend c k)
      | AtFlag c k => (set_SendingInProgress 1 s, AtSend c k)
      | AtSend c k => (write_UDR0 c s, resume k)
      | AtAppend c k => (snd (Putchar_append c s), resume k)
      end
  end.

(** The configurations reachable from initialisation by any
    interleaving of calls, statements of the caller and interrupts. *)
Inductive tx_reachable_fine : uart * tx_pc -> Prop :=
| fine_init : tx_reachable_fine (init_iuart, Outside)
| fine_next a cfg : tx_reachable_fine cfg -> tx_reachable_fine (fine_step a cfg).

(** The race of lines 66-76, from initialisation: 'A' is written; in the
    call with 'B' the flag is read as set, the interrupt then finds the
    ring empty and clears the flag, and 'B' is queued all the same. *)
Definition race_example : uart * tx_pc :=
  foldl (fun cfg a => fine_step a cfg) (init_iuart, Outside)
    [ActCall 65; ActRun; ActRun; ActRun;
     ActCall 66; ActRun; ActIrq; ActRun].

(** *** Ring-buffer vocabulary *)

(** [head] advanced by one slot with wrap-around. *)
Definition advance (i : Z) : Z :=
  if i + 1 =? UART_BUFFER_SIZE then 0 else i + 1.

Definition ring_full (s : uart) : Prop :=
  advance (UartBufferNextFree s) = UartBufferNextByteToSend s.

Definition ring_empty (s : uart) : Prop :=
  UartBufferNextFree s = UartBufferNextByteToSend s /\
  UartSendingInProgress s = 0.

(** Number of queued bytes and the queued bytes themselves, oldest
    first: the slots from [tail] up to, not including, [head]. *)
Definition qlen (s : uart) : Z :=
  (UartBufferNextFree s - UartBufferNextByteToSend s) mod UART_BUFFER_SIZE.

Definition queue (s : uart) : list Z :=
  (fun k : nat =>
     slot (UartBuffer s)
          ((UartBufferNextByteToSend s + Z.of_nat k) mod UART_BUFFER_SIZE))
    <$> seq 0 (Z.to_nat (qlen s)).

(** Everything accepted for transmission so far, in emission order:
    what has been stored to UDR0 followed by what waits in the ring. *)
Definition emitted (s : uart) : list Z := UDR0 s ++ queue s.

(** Well-formed transport state: the array has its declared size and
    both indices address it. *)
Definition tx_wf (s : uart) : Prop :=
  length (UartBuffer s) = 256%nat /\
  0 <= UartBufferNextByteToSend s < UART_BUFFER_SIZE /\
  0 <= UartBufferNextFree s < UART_BUFFER_SIZE.

(** Bytes accepted and not yet known to have left: the queued ones, plus
    the one in the transmitter while sending is in progress. *)
Definition in_flight (s : uart) : Z :=
  qlen s + (if UartSendingInProgress s =? 0 then 0 else 1).

(** Bytes a run of calls asks to send once line-feeds are expanded. *)
Fixpoint expanded_length (cs : list Z) : Z :=
  match cs with
  | [] => 0
  | c :: cs' => (if c =? 10 then 2 else 1) + expanded_length cs'
  end.

(** The transport after 256 calls with ['A'] and no interrupt: one byte in
    the transmitter, 255 in the ring. *)
Definition ring_full_example : uart :=
  snd (Putchar_seq (replicate 256 65) init_iuart).

(** UCSR0B once TXCIE0 has been masked and set again (lines 76 and 96). *)
Definition reenabled (s : uart) : Z :=
  Z.lor (Z.land (UCSR0B s) (Z.lnot (_BV TXCIE0))) (_BV TXCIE0).

(** ** Receive side: the line-editing reader *)

(** One poll of the receiver by the busy-wait of line 147: the value read
    from the status register UCSR0A, and the byte the receive interrupt
    has left in [ReceivedByte] at that moment.  The status is taken to
    be the same for the three reads of lines 147-150. *)
Record rx_event := mkRx { ev_UCSR0A : Z; ev_ReceivedByte : Z }.

(** A poll that finds byte [c] received without error. *)
Definition rx_ok (c : Z) : rx_event := mkRx (_BV RXC0) c.

(** The function-static variables of [uart_getchar], the transport
    state its echo goes to, and a log of the echo requests. *)
Record reader := mkReader {
  b : list Z;          (* static char b[RX_BUFSIZE] *)
  rxp : option nat;    (* static char *rxp: None is the null pointer,
                          Some i is b + i *)
  tx : uart;
  echo : list Z        (* arguments of the UART0_Putchar calls made by
                          uart_getchar, oldest first *)
}.

Definition set_b (v : list Z) (r : reader) : reader :=
  mkReader v (rxp r) (tx r) (echo r).
Definition set_rxp (v : option nat) (r : reader) : reader :=
  mkReader (b r) v (tx r) (echo r).

(** Zero-initialised statics on top of an initialised transport. *)
Definition reader_init : reader :=
  {| b := replicate RX_BUFSIZE 0; rxp := None; tx := init_iuart; echo := [] |}.

(** Array read through a pointer [b + i]. *)
Definition cell (a : list Z) (i : nat) : Z := default 0 (a !! i).

(** [UART0_Putchar(c, stream)] as called from the reader (status ignored). *)
Definition putc (c : Z) (r : reader) : reader :=
  mkReader (b r) (rxp r) (snd (UART0_Putchar c (tx r))) (echo r ++ [c]).

(** The three calls of lines 188-190 (and 204-206, 214-216). *)
Definition erase (r : reader) : reader :=
  let r := putc 8 r in
  let r := putc 32 r in
  putc 8 r.

(** ['x' & 0x1f] *)
Definition ctrl (ch : Z) : Z := Z.land ch 31.

(** Line 166-167. *)
Definition printable (c : Z) : bool :=
  ((32 <=? c) && (c <=? 126)) || (160 <=? c).

(** [while (cp > b) { erase; cp--; }] *)
Fixpoint kill_line (cp : nat) (r : reader) : nat * reader :=
  match cp with
  | O => (O, r)
  | S cp' => kill_line cp' (erase r)
  end.

(** [while (cp > b && cp[-1] != ' ') { erase; cp--; }] *)
Fixpoint kill_word (cp : nat) (r : reader) : nat * reader :=
  match cp with
  | O => (O, r)
  | S cp' =>
      if cell (b r) cp' =? 32 then (cp, r)
      else kill_word cp' (erase r)
  end.

(** [for (cp2 = b; cp2 < cp; cp2++) UART0_Putchar( *cp2, stream)] *)
Definition redraw (cp : nat) (r : reader) : reader :=
  foldl (fun r c => putc c r) r (take cp (b r)).

(** How one pass through the body of [for (cp = b;;)] ends. *)
Inductive loop_ctl :=
| Continue (cp : nat) (r : reader)   (* next iteration *)
| Break (r : reader)                 (* line 161 *)
| Return (v : Z) (r : reader).       (* return from inside the loop *)

(** Lines 153-220: what the loop body does with the byte [c] it has
    fetched from [ReceivedByte]. *)
Definition edit (c : Z) (cp : nat) (r : reader) : loop_ctl :=
  (* behaviour similar to Unix stty ICRNL *)
  let c := if c =? 13 then 10 else c in
  if c =? 10 then
    let r := set_b (<[cp := c]> (b r)) r in
    let r := putc c r in
    Break (set_rxp (Some 0%nat) r)
  else
    let c := if c =? 9 then 32 else c in
    if printable c then
      if (cp =? RX_BUFSIZE - 1)%nat then Continue cp (putc 7 r)
      else
        let r := set_b (<[cp := c]> (b r)) r in
        Continue (S cp) (putc c r)
    else if c =? ctrl 99 then Return (-1) r
    else if (c =? 8) || (c =? 127) then
      if (0 <? cp)%nat then Continue (cp - 1)%nat (erase r)
      else Continue cp r
    else if c =? ctrl 114 then Continue cp (redraw cp (putc 13 r))
    else if c =? ctrl 117 then
      let '(cp, r) := kill_line cp r in Continue cp r
    else if c =? ctrl 119 then
      let '(cp, r) := kill_word cp r in Continue cp r
    else Continue cp r.

(** Lines 148-220, entered once RXC0 has been seen set.  [c] is a
    [uint8_t], so the byte is taken modulo 256. *)
Definition getchar_iter (ev : rx_event) (cp : nat) (r : reader) : loop_ctl :=
  if negb (Z.land (ev_UCSR0A ev) (_BV FE0) =? 0) then Return _FDEV_EOF r
  else if negb (Z.land (ev_UCSR0A ev) (_BV DOR0) =? 0) then Return _FDEV_ERR r
  else edit (ev_ReceivedByte ev mod 256) cp r.

(** The poll [ev] finds a byte ready, with neither the framing-error nor
    the overrun flag raised, and that byte is [c]. *)
Definition received (ev : rx_event) (c : Z) : Prop :=
  Z.land (ev_UCSR0A ev) (_BV RXC0) <> 0 /\
  Z.land (ev_UCSR0A ev) (_BV FE0) = 0 /\
  Z.land (ev_UCSR0A ev) (_BV DOR0) = 0 /\
  ev_ReceivedByte ev mod 256 = c.

(** Polls that find a byte ready with the framing-error flag, or with
    the overrun flag alone. *)
Definition framing_error (ev : rx_event) : Prop :=
  Z.land (ev_UCSR0A ev) (_BV RXC0) <> 0 /\
  Z.land (ev_UCSR0A ev) (_BV FE0) <> 0.

Definition overrun_error (ev : rx_event) : Prop :=
  Z.land (ev_UCSR0A ev) (_BV RXC0) <> 0 /\
  Z.land (ev_UCSR0A ev) (_BV FE0) = 0 /\
  Z.land (ev_UCSR0A ev) (_BV DOR0) <> 0.

(** The loop invariant of the collecting loop: the cursor leaves room
    for the line-feed, no line is pending, and the bytes before the
    cursor are the printable ones accepted so far. *)
Definition collecting (cp : nat) (r : reader) : Prop :=
  length (b r) = RX_BUFSIZE /\
  (cp <= RX_BUFSIZE - 1)%nat /\
  rxp r = None /\
  forall i, (i < cp)%nat -> printable (cell (b r) i) = true.

(** A completed line waits in the buffer: [n] printable bytes followed
    by the line-feed, with [rxp] at the start of the buffer. *)
Definition line_ready (n : nat) (r : reader) : Prop :=
  (n <= RX_BUFSIZE - 1)%nat /\
  length (b r) = RX_BUFSIZE /\
  rxp r = Some 0%nat /\
  b r !! n = Some 10 /\
  forall i, (i < n)%nat -> printable (cell (b r) i) = true.

(** How the collecting loop ends on a finite list of polls. *)
Inductive loop_exit :=
| Broke                (* left by the break: a line is complete *)
| Left (v : Z)         (* left by a return statement *)
| Waiting (cp : nat).  (* polls exhausted: still in the busy-wait, with
                          the cursor at b + cp *)

(** The loop of lines 145-221 run on the polls the hardware offers. *)
Fixpoint getchar_loop (polls : list rx_event) (cp : nat) (r : reader)
  : loop_exit * reader * list rx_event :=
  match polls with
  | [] => (Waiting cp, r, [])
  | ev :: polls' =>
      if Z.land (ev_UCSR0A ev) (_BV RXC0) =? 0
      then getchar_loop polls' cp r
      else
        match getchar_iter ev cp r with
        | Continue cp' r' => getchar_loop polls' cp' r'
        | Break r' => (Broke, r', polls')
        | Return v r' => (Left v, r', polls')
        end
  end.

(** What a call of [uart_getchar] comes to. *)
Inductive result :=
| Returned (v : Z)     (* the int handed to the caller *)
| Blocked (cp : nat)   (* never returns on these polls *)
| Fault.               (* null pointer read at line 223 *)

(** Lines 223-227. *)
Definition next_char (r : reader) : result * reader :=
  match rxp r with
  | None => (Fault, r)
  | Some i =>
      let c := cell (b r) i in
      let r := set_rxp (Some (S i)) r in
      let r := if c =? 10 then set_rxp None r else r in
      (Returned c, r)
  end.

Definition uart_getchar (polls : list rx_event) (r : reader)
  : result * reader * list rx_event :=
  match rxp r with
  | None =>
      match getchar_loop polls 0 r with
      | (Broke, r', polls') =>
          let '(res, r'') := next_char r' in (res, r'', polls')
      | (Left v, r', polls') => (Returned v, r', polls')
      | (Waiting cp, r', polls') => (Blocked cp, r', polls')
      end
  | Some _ =>
      let '(res, r') := next_char r in (res, r', polls)
  end.

(** [n] successive calls: the values returned (until one call does not
    return a value), the reader left behind and the polls not consumed. *)
Fixpoint getchar_n (n : nat) (polls : list rx_event) (r : reader)
  : list Z * reader * list rx_event :=
  match n with
  | O => ([], r, polls)
  | S n' =>
      match uart_getchar polls r with
      | (Returned v, r', polls') =>
          let '(vs, r'', polls'') := getchar_n n' polls' r' in
          (v :: vs, r'', polls'')
      | (_, r', polls') => ([], r', polls')
      end
  end.

(** Number of places at which [pat] occurs in [l] as a block. *)
Fixpoint prefix_b (pat l : list Z) : bool :=
  match pat, l with
  | [], _ => true
  | p :: pat', x :: l' => (p =? x) && prefix_b pat' l'
  | _ :: _, [] => false
  end.

Fixpoint occurrences (pat l : list Z) : nat :=
  match l with
  | [] => O
  | _ :: l' => ((if prefix_b pat l then 1 else 0) + occurrences pat l')%nat
  end.

(** ** Vocabulary of the further properties *)

(** The bytes a run of accepted calls hands to the transmitter:
    every line-feed is preceded by a carriage-return. *)
Fixpoint expand (cs : list Z) : list Z :=
  match cs with
  | [] => []
  | c :: cs' => (if c =? 10 then [13; 10] else [c]) ++ expand cs'
  end.

(** What holds of the transport wherever the interrupt can be
    serviced: the state is well formed, the flag is 0 or 1, and UCSR0B
    is as [init_iuart] left it. *)
Definition tx_inv (s : uart) : Prop :=
  tx_wf s /\
  (UartSendingInProgress s = 0 \/ UartSendingInProgress s = 1) /\
  UCSR0B s = UCSR0B init_iuart.

(** Line 163-164: a tab is taken as a space. *)
Definition normalize_tab (c : Z) : Z := if c =? 9 then 32 else c.

(** Bytes that go into the line: printable ones, and the tab. *)
Definition text (c : Z) : Prop := printable (normalize_tab c) = true.

(** Bytes no branch of the loop body acts on: control bytes and the
    range 0x80-0x9f, apart from the terminators, the tab and the editing
    and abort keys. *)
Definition ignored (c : Z) : Prop :=
  (0 <= c < 32 \/ 128 <= c < 160) /\
  c <> 3 /\ c <> 8 /\ c <> 9 /\ c <> 10 /\ c <> 13 /\
  c <> 18 /\ c <> 21 /\ c <> 23.

(** A poll that cannot end a call: nothing received, or a byte received
    without error that is neither a terminator nor the abort byte. *)
Definition quiet (ev : rx_event) : Prop :=
  Z.land (ev_UCSR0A ev) (_BV RXC0) = 0 \/
  (Z.land (ev_UCSR0A ev) (_BV FE0) = 0 /\
   Z.land (ev_UCSR0A ev) (_BV DOR0) = 0 /\
   ev_ReceivedByte ev mod 256 <> 10 /\
   ev_ReceivedByte ev mod 256 <> 13 /\
   ev_ReceivedByte ev mod 256 <> 3).

(** [n] erase sequences. *)
Definition erases (n : nat) : list Z := concat (replicate n [8; 32; 8]).

(** From [r] to [r'] the reader has only called [UART0_Putchar], on the
    bytes its echo log has gained, in that order. *)
Definition echoed (r r' : reader) : Prop :=
  exists l, echo r' = echo r ++ l /\ tx r' = snd (Putchar_seq l (tx r)).

(** What holds of the reader between any two calls: the line buffer has
    its size, and a non-null [rxp] points into it, at or before a
    line-feed that lies within the buffer. *)
Definition reader_inv (r : reader) : Prop :=
  length (b r) = RX_BUFSIZE /\
  match rxp r with
  | None => True
  | Some i =>
      exists n, (i <= n <= RX_BUFSIZE - 1)%nat /\
                b r !! n = Some 10 /\
                forall j, (i <= j < n)%nat -> cell (b r) j <> 10
  end.

(** [init_iuart], lines 32-33: the baud-rate divisor of iuart.h, computed
    in 32-bit unsigned long from the clock frequency [F_CPU] (a macro of
    the build), and its two bytes as stored to the 8-bit registers UBRR0H
    and UBRR0L. *)
Definition USART_BAUDRATE : Z := 9600.
Definition BAUD_PRESCALE (F_CPU : Z) : Z :=
  ((F_CPU mod 2 ^ 32) / ((USART_BAUDRATE * 16) mod 2 ^ 32) - 1) mod 2 ^ 32.
Definition init_UBRR0H (F_CPU : Z) : Z :=
  Z.shiftr (BAUD_PRESCALE F_CPU) 8 mod 256.
Definition init_UBRR0L (F_CPU : Z) : Z := BAUD_PRESCALE F_CPU mod 256.

(** * Properties *)

Ltac Zify.zify_post_hook ::= Z.to_euclidean_division_equations.

(** ** Transmit engine: basic facts *)

Section TxFacts.

Implicit Types (s : uart) (c : Z).

Lemma int16_small z : -32768 <= z < 32768 -> int16 z = z.
Proof. intros H. unfold int16. rewrite Z.mod_small by lia. lia. Qed.

Lemma body_idle c s :
  UartSendingInProgress s = 0 ->
  UART0_Putchar_body c s = (0, write_UDR0 c (set_SendingInProgress 1 s)).
Proof. intros H. unfold UART0_Putchar_body. now rewrite H. Qed.

(** The append path, with the two index tests resolved. *)
Lemma body_busy c s :
  tx_wf s -> UartSendingInProgress s <> 0 ->
  UART0_Putchar_body c s =
    let buf := <[Z.to_nat (UartBufferNextFree s) := c]> (UartBuffer s) in
    if advance (UartBufferNextFree s) =? UartBufferNextByteToSend s
    then (EOF, set_UCSR0B (reenabled s) (set_UartBuffer buf s))
    else (0, set_UCSR0B (reenabled s)
               (set_NextFree (advance (UartBufferNextFree s))
                  (set_UartBuffer buf s))).
Proof.
  intros (Hlen & Ht & Hh) Hsip. unfold UART0_Putchar_body.
  destruct (Z.eqb_spec (UartSendingInProgress s) 0) as [|_]; [contradiction|].
  cbn -[Z.eqb Z.land Z.lor Z.lnot int16 _BV].
  rewrite int16_small by (unfold UART_BUFFER_SIZE in *; lia).
  unfold advance, UART_BUFFER_SIZE in *.
  destruct (Z.eqb_spec (UartBufferNextFree s + 1) 256) as [E|E];
    cbn -[Z.eqb Z.land Z.lor Z.lnot int16 _BV].
  - destruct (Z.eqb_spec 0 (UartBufferNextByteToSend s)); reflexivity.
  - destruct (Z.eqb_spec (UartBufferNextFree s + 1)
                         (UartBufferNextByteToSend s)); reflexivity.
Qed.

Lemma full_qlen s : tx_wf s -> (ring_full s <-> qlen s = 255).
Proof.
  intros (_ & Ht & Hh). unfold ring_full, qlen, advance, UART_BUFFER_SIZE in *.
  destruct (Z.eqb_spec (UartBufferNextFree s + 1) 256); lia.
Qed.

Lemma qlen_range s : 0 <= qlen s < 256.
Proof. unfold qlen, UART_BUFFER_SIZE. lia. Qed.

(** The queue only depends on the indices and on the slots between them. *)
Lemma queue_ext s s' :
  UartBufferNextByteToSend s' = UartBufferNextByteToSend s ->
  UartBufferNextFree s' = UartBufferNextFree s ->
  (forall k, 0 <= k < qlen s ->
     slot (UartBuffer s') ((UartBufferNextByteToSend s + k) mod 256)
     = slot (UartBuffer s) ((UartBufferNextByteToSend s + k) mod 256)) ->
  queue s' = queue s.
Proof.
  intros Ht Hh Hslots. unfold queue, qlen. rewrite Ht, Hh.
  apply list_fmap_ext. intros i k Hk.
  apply lookup_seq in Hk as [-> Hlt]. cbn.
  apply Hslots. unfold qlen. lia.
Qed.

Lemma slot_insert_ne a i j c :
  0 <= i -> 0 <= j -> i <> j -> slot (<[Z.to_nat i := c]> a) j = slot a j.
Proof.
  intros Hi Hj Hne. unfold slot.
  rewrite list_lookup_insert_ne by lia. reflexivity.
Qed.

Lemma slot_insert_eq a i c :
  0 <= i -> (Z.to_nat i < length a)%nat -> slot (<[Z.to_nat i := c]> a) i = c.
Proof.
  intros Hi Hlt. unfold slot. now rewrite list_lookup_insert_eq.
Qed.

(** Storing at [head] does not disturb a queued byte. *)
Lemma queue_store_head s c :
  tx_wf s ->
  queue (set_UartBuffer (<[Z.to_nat (UartBufferNextFree s) := c]> (UartBuffer s)) s)
  = queue s.
Proof.
  intros (Hlen & Ht & Hh). apply queue_ext; [reflexivity | reflexivity |].
  intros k Hk. cbn. unfold qlen, UART_BUFFER_SIZE in *.
  apply slot_insert_ne; lia.
Qed.

Lemma queue_UCSR0B v s : queue (set_UCSR0B v s) = queue s.
Proof. reflexivity. Qed.

(** Appending where there is room extends the queue at its end. *)
Lemma queue_push s c :
  tx_wf s -> qlen s < 255 ->
  queue (set_NextFree (advance (UartBufferNextFree s))
           (set_UartBuffer (<[Z.to_nat (UartBufferNextFree s) := c]> (UartBuffer s)) s))
  = queue s ++ [c].
Proof.
  intros Hwf Hroom. pose proof Hwf as (Hlen & Ht & Hh).
  pose proof (qlen_range s) as Hq.
  unfold queue at 1. cbn.
  assert (Hq' : (advance (UartBufferNextFree s) - UartBufferNextByteToSend s)
                  mod 256 = qlen s + 1).
  { unfold qlen, advance, UART_BUFFER_SIZE in *.
    destruct (Z.eqb_spec (UartBufferNextFree s + 1) 256); lia. }
  unfold qlen at 1. cbn. unfold UART_BUFFER_SIZE at 1 2. rewrite Hq'.
  replace (Z.to_nat (qlen s + 1)) with (S (Z.to_nat (qlen s))) by lia.
  rewrite seq_S, fmap_app. cbn. f_equal.
  - apply list_fmap_ext. intros i k Hk.
    apply lookup_seq in Hk as [-> Hlt]. cbn.
    apply slot_insert_ne; unfold qlen, UART_BUFFER_SIZE in *; lia.
  - f_equal.
    replace ((UartBufferNextByteToSend s + Z.of_nat (Z.to_nat (qlen s))) mod 256)
      with (UartBufferNextFree s)
      by (unfold qlen, UART_BUFFER_SIZE in *; lia).
    apply slot_insert_eq; unfold UART_BUFFER_SIZE in *; lia.
Qed.

Lemma qlen_push s v :
  tx_wf s -> qlen s < 255 ->
  qlen (set_NextFree (advance (UartBufferNextFree s)) (set_UartBuffer v s))
  = qlen s + 1.
Proof.
  intros (Hlen & Ht & Hh) Hroom. unfold qlen, advance, UART_BUFFER_SIZE in *. cbn.
  destruct (Z.eqb_spec (UartBufferNextFree s + 1) 256); lia.
Qed.

End TxFacts.

(** ** Transmit engine: one call *)

Section TxCall.

Implicit Types (s : uart) (c : Z).

Lemma body_full c s :
  tx_wf s -> UartSendingInProgress s <> 0 -> ring_full s ->
  let r := UART0_Putchar_body c s in
  fst r = EOF /\
  UartBufferNextFree (snd r) = UartBufferNextFree s /\
  UartBufferNextByteToSend (snd r) = UartBufferNextByteToSend s /\
  UartSendingInProgress (snd r) = UartSendingInProgress s /\
  UDR0 (snd r) = UDR0 s /\
  queue (snd r) = queue s /\
  tx_wf (snd r).
Proof.
  intros Hwf Hsip Hfull. cbv zeta. rewrite body_busy by assumption. cbv zeta.
  unfold ring_full in Hfull. rewrite Hfull, Z.eqb_refl. cbn [fst snd].
  repeat split; try reflexivity.
  - rewrite queue_UCSR0B. now apply queue_store_head.
  - cbn. rewrite length_insert. apply Hwf.
  - apply Hwf.
  - apply Hwf.
  - apply Hwf.
  - apply Hwf.
Qed.

Lemma body_room c s :
  tx_wf s -> UartSendingInProgress s <> 0 -> ~ ring_full s ->
  let r := UART0_Putchar_body c s in
  fst r = 0 /\
  UartBufferNextByteToSend (snd r) = UartBufferNextByteToSend s /\
  UartSendingInProgress (snd r) = UartSendingInProgress s /\
  UDR0 (snd r) = UDR0 s /\
  queue (snd r) = queue s ++ [c] /\
  qlen (snd r) = qlen s + 1 /\
  tx_wf (snd r).
Proof.
  intros Hwf Hsip Hroom. cbv zeta. rewrite body_busy by assumption. cbv zeta.
  assert (Hq : qlen s < 255).
  { pose proof (qlen_range s). destruct (full_qlen s Hwf) as [_ Hf].
    assert (qlen s <> 255) by (intro Hq; apply Hroom, Hf, Hq). lia. }
  unfold ring_full in Hroom.
  destruct (Z.eqb_spec (advance (UartBufferNextFree s))
                       (UartBufferNextByteToSend s)) as [E|_]; [contradiction|].
  cbn [fst snd]. repeat split; try reflexivity.
  - rewrite queue_UCSR0B. now apply queue_push.
  - now apply (qlen_push s).
  - cbn. rewrite length_insert. apply Hwf.
  - apply Hwf.
  - apply Hwf.
  - cbn. unfold advance, UART_BUFFER_SIZE.
    destruct Hwf as (_ & _ & Hh). unfold UART_BUFFER_SIZE in Hh.
    destruct (Z.eqb_spec (UartBufferNextFree s + 1) 256); lia.
  - cbn. unfold advance, UART_BUFFER_SIZE.
    destruct Hwf as (_ & _ & Hh). unfold UART_BUFFER_SIZE in Hh.
    destruct (Z.eqb_spec (UartBufferNextFree s + 1) 256); lia.
Qed.

Lemma ring_full_dec s : {ring_full s} + {~ ring_full s}.
Proof. unfold ring_full. apply Z.eq_dec. Qed.

Lemma body_wf c s : tx_wf s -> tx_wf (snd (UART0_Putchar_body c s)).
Proof.
  intros Hwf.
  destruct (Z.eq_dec (UartSendingInProgress s) 0) as [E|E].
  - rewrite body_idle by assumption. exact Hwf.
  - destruct (ring_full_dec s) as [F|F].
    + apply (body_full c s Hwf E F).
    + apply (body_room c s Hwf E F).
Qed.

Lemma isr_wf s : tx_wf s -> tx_wf (USART_TX_vect s).
Proof.
  intros (Hlen & Ht & Hh). unfold USART_TX_vect, UART_BUFFER_SIZE in *.
  destruct (Z.eqb_spec (UartBufferNextByteToSend s) (UartBufferNextFree s)).
  - repeat split; assumption || apply Ht || apply Hh.
  - cbn -[Z.eqb int16]. rewrite int16_small by lia.
    destruct (Z.eqb_spec (UartBufferNextByteToSend s + 1) 256);
      unfold tx_wf, UART_BUFFER_SIZE; cbn; repeat split; try assumption; lia.
Qed.

Lemma iter_isr_wf n s : tx_wf s -> tx_wf (Nat.iter n USART_TX_vect s).
Proof. intros Hwf. induction n; cbn; [assumption | now apply isr_wf]. Qed.

Lemma putchar_irq_wf irqs c s :
  tx_wf s -> tx_wf (snd (UART0_Putchar_irq irqs c s)).
Proof.
  intros Hwf. unfold UART0_Putchar_irq. apply body_wf.
  destruct (c =? 10); [|assumption].
  apply iter_isr_wf, body_wf, Hwf.
Qed.

(** An uninterrupted call is one body, or two for the line-feed. *)
Lemma Putchar_unfold c s :
  UART0_Putchar c s =
  UART0_Putchar_body c
    (if c =? 10 then snd (UART0_Putchar_body 13 s) else s).
Proof. reflexivity. Qed.

(** A call on a full ring with the transmitter busy is rejected, for the
    line-feed as for any other byte. *)
Lemma putchar_full_status c s :
  tx_wf s -> ring_full s -> UartSendingInProgress s <> 0 ->
  fst (UART0_Putchar c s) = EOF.
Proof.
  intros Hwf Hfull Hsip. rewrite Putchar_unfold. destruct (c =? 10).
  - destruct (body_full 13 s Hwf Hsip Hfull) as (_ & H1 & H2 & H3 & _ & _ & H6).
    apply body_full; [exact H6 | now rewrite H3 |].
    unfold ring_full. now rewrite H1, H2.
  - now apply body_full.
Qed.

Lemma init_wf : tx_wf init_iuart.
Proof. repeat split; cbn; lia. Qed.

Lemma reachable_wf s : tx_reachable s -> tx_wf s.
Proof.
  induction 1 as [|e s _ IH]; [apply init_wf|].
  destruct e; cbn; [now apply putchar_irq_wf | now apply isr_wf].
Qed.

End TxCall.

(** ** Transmit engine: statement by statement *)

Section TxFine.

Implicit Types (s : uart) (c : Z).

(** The two arms of [UART0_Putchar_body]. *)
Lemma body_arms c s :
  UART0_Putchar_body c s =
    if UartSendingInProgress s =? 0
    then (0, write_UDR0 c (set_SendingInProgress 1 s))
    else Putchar_append c s.
Proof. reflexivity. Qed.

(** The append arm with its two index tests resolved, whatever the flag. *)
Lemma append_resolved c s :
  tx_wf s ->
  Putchar_append c s =
    let buf := <[Z.to_nat (UartBufferNextFree s) := c]> (UartBuffer s) in
    if advance (UartBufferNextFree s) =? UartBufferNextByteToSend s
    then (EOF, set_UCSR0B (reenabled s) (set_UartBuffer buf s))
    else (0, set_UCSR0B (reenabled s)
               (set_NextFree (advance (UartBufferNextFree s))
                  (set_UartBuffer buf s))).
Proof.
  intros (Hlen & Ht & Hh). unfold Putchar_append.
  cbn -[Z.eqb Z.land Z.lor Z.lnot int16 _BV].
  rewrite int16_small by (unfold UART_BUFFER_SIZE in *; lia).
  unfold advance, UART_BUFFER_SIZE in *.
  destruct (Z.eqb_spec (UartBufferNextFree s + 1) 256) as [E|E];
    cbn -[Z.eqb Z.land Z.lor Z.lnot int16 _BV].
  - destruct (Z.eqb_spec 0 (UartBufferNextByteToSend s)); reflexivity.
  - destruct (Z.eqb_spec (UartBufferNextFree s + 1)
                         (UartBufferNextByteToSend s)); reflexivity.
Qed.

Lemma append_inv c s : tx_inv s -> tx_inv (snd (Putchar_append c s)).
Proof.
  intros (Hwf & Hsip & Hreg). rewrite append_resolved by assumption.
  cbv zeta. pose proof Hwf as (Hlen & Ht & Hh).
  assert (Hre : reenabled s = UCSR0B init_iuart)
    by (unfold reenabled; rewrite Hreg; reflexivity).
  assert (Hadv : 0 <= advance (UartBufferNextFree s) < UART_BUFFER_SIZE).
  { unfold advance, UART_BUFFER_SIZE in *.
    destruct (Z.eqb_spec (UartBufferNextFree s + 1) 256); lia. }
  destruct (_ =? _); cbn [snd]; unfold tx_inv, tx_wf; cbn;
    rewrite length_insert; auto.
Qed.

Lemma isr_inv s : tx_inv s -> tx_inv (USART_TX_vect s).
Proof.
  intros (Hwf & Hsip & Hreg).
  split; [now apply isr_wf|].
  unfold USART_TX_vect.
  destruct (Z.eqb_spec (UartBufferNextByteToSend s) (UartBufferNextFree s)).
  - cbn. split; [now left | exact Hreg].
  - cbv zeta. destruct (_ =? UART_BUFFER_SIZE); cbn;
      (split; [now right | exact Hreg]).
Qed.

Lemma init_inv : tx_inv init_iuart.
Proof. split; [apply init_wf|]. cbn. split; [now left | reflexivity]. Qed.

Lemma fine_step_inv a cfg :
  tx_inv (fst cfg) -> tx_inv (fst (fine_step a cfg)).
Proof.
  destruct cfg as [s p]. cbn [fst]. intros Hinv.
  destruct a as [c| |]; cbn [fine_step].
  - destruct p; exact Hinv.
  - destruct p as [|c k|c k|c k|c k]; cbn [fst]; try exact Hinv.
    + destruct Hinv as (Hwf & _ & Hreg).
      split; [exact Hwf|]. cbn. split; [now right | exact Hreg].
    + now apply append_inv.
  - destruct (Z.testbit (UCSR0B s) TXCIE0); [now apply isr_inv | exact Hinv].
Qed.

Lemma fine_reachable_inv cfg : tx_reachable_fine cfg -> tx_inv (fst cfg).
Proof.
  induction 1 as [|a cfg _ IH]; [apply init_inv | now apply fine_step_inv].
Qed.

Lemma fine_run acts : forall cfg,
  tx_reachable_fine cfg ->
  tx_reachable_fine (foldl (fun cfg a => fine_step a cfg) cfg acts).
Proof.
  induction acts as [|a acts IH]; intros cfg H; cbn [foldl]; [exact H|].
  apply IH. now apply fine_next.
Qed.

(** Wherever the caller stands, the interrupt is enabled. *)
Lemma fine_irq s p :
  tx_reachable_fine (s, p) -> tx_reachable_fine (USART_TX_vect s, p).
Proof.
  intros H. pose proof (fine_next ActIrq _ H) as H1. cbn [fine_step] in H1.
  destruct (fine_reachable_inv _ H) as (_ & _ & Hreg). cbn [fst] in Hreg.
  now rewrite Hreg in H1.
Qed.

Lemma fine_irqs n s p :
  tx_reachable_fine (s, p) ->
  tx_reachable_fine (Nat.iter n USART_TX_vect s, p).
Proof.
  intros H. induction n as [|n IH]; cbn; [exact H | now apply fine_irq].
Qed.

(** From the test of line 66 to the end of the call, uninterrupted, the
    statements have the effect of [UART0_Putchar_body]. *)
Lemma fine_arm c k s :
  tx_reachable_fine (s, AtTest c k) ->
  tx_reachable_fine (snd (UART0_Putchar_body c s), resume k).
Proof.
  intros H. rewrite body_arms.
  pose proof (fine_next ActRun _ H) as H1. cbn [fine_step] in H1.
  destruct (UartSendingInProgress s =? 0).
  - exact (fine_next ActRun _ (fine_next ActRun _ H1)).
  - exact (fine_next ActRun _ H1).
Qed.

(** Every state of [tx_reachable] is reached statement by statement. *)
Lemma tx_reachable_is_fine s :
  tx_reachable s -> tx_reachable_fine (s, Outside).
Proof.
  induction 1 as [|e s _ IH]; [apply fine_init|].
  destruct e as [irqs c|]; cbn [tx_step]; [|now apply fine_irq].
  pose proof (fine_next (ActCall c) _ IH) as H. cbn [fine_step] in H.
  unfold UART0_Putchar_irq. destruct (c =? 10).
  - apply fine_arm in H. cbn [resume] in H.
    apply (fine_irqs irqs) in H. apply fine_arm in H. exact H.
  - apply fine_arm in H. exact H.
Qed.

Lemma race_example_reachable : tx_reachable_fine race_example.
Proof. apply fine_run, fine_init. Qed.

End TxFine.

(** ** Transmit engine: the claims *)

Section TxClaims.

Implicit Types (s : uart) (c : Z).

(** C2.  In a well-formed state whose ring is full while a transmission
    is in progress, [UART0_Putchar c] returns EOF (buffer full) and the
    logical queue is as before: head and tail keep their values, nothing
    is stored to UDR0 and the queued bytes are the same, so [c] is neither
    transmitted nor queued.  This holds for the line-feed too, whose
    carriage-return is rejected the same way. *)
Theorem full_ring_write_rejected c s :
  tx_wf s -> ring_full s -> UartSendingInProgress s <> 0 ->
  fst (UART0_Putchar c s) = EOF /\
  UartBufferNextFree (snd (UART0_Putchar c s)) = UartBufferNextFree s /\
  UartBufferNextByteToSend (snd (UART0_Putchar c s))
    = UartBufferNextByteToSend s /\
  UDR0 (snd (UART0_Putchar c s)) = UDR0 s /\
  queue (snd (UART0_Putchar c s)) = queue s.
Proof.
  intros Hwf Hfull Hsip.
  assert (Hgen : forall s0, tx_wf s0 -> ring_full s0 ->
            UartSendingInProgress s0 <> 0 ->
            UartBufferNextFree s0 = UartBufferNextFree s ->
            UartBufferNextByteToSend s0 = UartBufferNextByteToSend s ->
            UDR0 s0 = UDR0 s -> queue s0 = queue s ->
            fst (UART0_Putchar_body c s0) = EOF /\
            UartBufferNextFree (snd (UART0_Putchar_body c s0))
              = UartBufferNextFree s /\
            UartBufferNextByteToSend (snd (UART0_Putchar_body c s0))
              = UartBufferNextByteToSend s /\
            UDR0 (snd (UART0_Putchar_body c s0)) = UDR0 s /\
            queue (snd (UART0_Putchar_body c s0)) = queue s).
  { intros s0 Hwf0 Hfull0 Hsip0 Eh Et Eu Eq.
    destruct (body_full c s0 Hwf0 Hsip0 Hfull0) as (R & H1 & H2 & _ & H4 & H5 & _).
    repeat split; congruence. }
  rewrite Putchar_unfold. destruct (c =? 10).
  - destruct (body_full 13 s Hwf Hsip Hfull) as (_ & H1 & H2 & H3 & H4 & H5 & H6).
    apply Hgen; try assumption.
    + unfold ring_full. rewrite H1, H2. exact Hfull.
    + rewrite H3. exact Hsip.
  - apply Hgen; auto.
Qed.

Lemma full_ring_write_rejected_witness :
  fst (UART0_Putchar 65 ring_full_example) = EOF /\
  UartBufferNextFree (snd (UART0_Putchar 65 ring_full_example))
    = UartBufferNextFree ring_full_example /\
  UartBufferNextByteToSend (snd (UART0_Putchar 65 ring_full_example))
    = UartBufferNextByteToSend ring_full_example /\
  UDR0 (snd (UART0_Putchar 65 ring_full_example)) = UDR0 ring_full_example /\
  queue (snd (UART0_Putchar 65 ring_full_example)) = queue ring_full_example.
Proof.
  apply (full_ring_write_rejected 65 ring_full_example).
  - repeat split; vm_compute; congruence.
  - vm_compute. reflexivity.
  - vm_compute. discriminate.
Defined.

(** C5.  In every configuration reachable from initialisation by any
    interleaving of [UART0_Putchar] calls and transmit-complete
    interrupts, head and tail lie in [0, capacity) and the ring is not at
    once empty and full.  The interrupt may be serviced before or after
    any statement of a call that runs with TXCIE0 set, in particular
    between the test of the flag at line 66 and the arm it has chosen;
    lines 76-96, which the interrupt cannot observe, are one step.  The
    states of [tx_reachable] are among these ([tx_reachable_is_fine]). *)
Theorem reachable_indices_in_range cfg :
  tx_reachable_fine cfg ->
  0 <= UartBufferNextFree (fst cfg) < UART_BUFFER_SIZE /\
  0 <= UartBufferNextByteToSend (fst cfg) < UART_BUFFER_SIZE /\
  ~ (ring_empty (fst cfg) /\ ring_full (fst cfg)).
Proof.
  intros Hreach.
  destruct (fine_reachable_inv cfg Hreach) as ((_ & Ht & Hh) & _).
  split; [exact Hh|]. split; [exact Ht|].
  intros [[Heq _] Hfull]. unfold ring_full, advance, UART_BUFFER_SIZE in *.
  destruct (Z.eqb_spec (UartBufferNextFree (fst cfg) + 1) 256); lia.
Qed.

Lemma reachable_indices_in_range_witness :
  0 <= UartBufferNextFree (fst race_example) < UART_BUFFER_SIZE /\
  0 <= UartBufferNextByteToSend (fst race_example) < UART_BUFFER_SIZE /\
  ~ (ring_empty (fst race_example) /\ ring_full (fst race_example)).
Proof.
  apply (reachable_indices_in_range race_example).
  unfold race_example. cbn [foldl].
  repeat apply fine_next. apply fine_init.
Defined.

End TxClaims.

(** ** Transmit engine: runs of calls and the emitted stream *)

Section TxStream.

Implicit Types (s : uart) (c : Z).

Lemma queue_nil s : qlen s = 0 -> queue s = [].
Proof. intros H. unfold queue. now rewrite H. Qed.

(** One pass through the body while at most 255 bytes are in flight:
    the byte is accepted, and lands at the end of the emitted stream. *)
Lemma body_accepts c s :
  tx_wf s -> in_flight s <= 255 ->
  let r := UART0_Putchar_body c s in
  fst r = 0 /\
  tx_wf (snd r) /\
  in_flight (snd r) = in_flight s + 1 /\
  UartSendingInProgress (snd r) <> 0 /\
  ((UartSendingInProgress s = 0 -> qlen s = 0) ->
   emitted (snd r) = emitted s ++ [c]).
Proof.
  intros Hwf Hfl. cbv zeta. unfold in_flight in *.
  destruct (Z.eqb_spec (UartSendingInProgress s) 0) as [E|E].
  - rewrite body_idle by assumption. cbn [fst snd].
    repeat split; try apply Hwf.
    + cbn. unfold qlen. cbn. lia.
    + cbn. lia.
    + intros Hq. unfold emitted. cbn [UDR0 write_UDR0].
      change (queue (write_UDR0 c (set_SendingInProgress 1 s))) with (queue s).
      rewrite (queue_nil s) by auto. now rewrite !app_nil_r.
  - assert (Hroom : ~ ring_full s).
    { intros F. apply (full_qlen s Hwf) in F. lia. }
    destruct (body_room c s Hwf E Hroom) as (R & Ht & Hs & Hu & Hq & Hl & Hwf').
    repeat split; try apply Hwf'; try assumption.
    + rewrite Hs, Hl.
      destruct (Z.eqb_spec (UartSendingInProgress s) 0); [contradiction | lia].
    + congruence.
    + intros _. unfold emitted. rewrite Hu, Hq. now rewrite app_assoc.
Qed.

Lemma putchar_accepts c s :
  tx_wf s -> in_flight s + (if c =? 10 then 2 else 1) <= 256 ->
  fst (UART0_Putchar c s) = 0 /\
  tx_wf (snd (UART0_Putchar c s)) /\
  in_flight (snd (UART0_Putchar c s))
    = in_flight s + (if c =? 10 then 2 else 1).
Proof.
  intros Hwf Hfl. rewrite Putchar_unfold. destruct (c =? 10).
  - destruct (body_accepts 13 s Hwf) as (_ & Hwf1 & Hl1 & _); [lia|].
    destruct (body_accepts c (snd (UART0_Putchar_body 13 s)) Hwf1)
      as (R & Hwf2 & Hl2 & _); [lia|].
    repeat split; try apply Hwf2; [assumption | lia].
  - destruct (body_accepts c s Hwf) as (R & Hwf1 & Hl1 & _); [lia|].
    repeat split; try apply Hwf1; assumption.
Qed.

Lemma expanded_length_nonneg cs : 0 <= expanded_length cs.
Proof.
  induction cs as [|c cs IH]; cbn [expanded_length]; [lia|].
  destruct (c =? 10); lia.
Qed.

Lemma putchar_seq_accepts cs : forall s,
  tx_wf s -> in_flight s + expanded_length cs <= 256 ->
  Forall (fun r => r = 0) (fst (Putchar_seq cs s)).
Proof.
  induction cs as [|c cs IH]; intros s Hwf Hfl; cbn [Putchar_seq].
  - constructor.
  - cbn [expanded_length] in Hfl.
    pose proof (expanded_length_nonneg cs) as Hnn.
    destruct (putchar_accepts c s Hwf) as (R & Hwf1 & Hl1); [lia|].
    destruct (UART0_Putchar c s) as [r s1]. cbn [fst snd] in *.
    specialize (IH s1 Hwf1).
    destruct (Putchar_seq cs s1) as [rs s2]. cbn [fst] in *.
    constructor; [assumption | apply IH; lia].
Qed.

Lemma putchar_seq_reachable cs : forall s,
  tx_reachable s -> tx_reachable (snd (Putchar_seq cs s)).
Proof.
  induction cs as [|c cs IH]; intros s Hs; cbn [Putchar_seq]; [assumption|].
  pose proof (reach_step (EvPutchar 0 c) s Hs) as H1. cbn in H1.
  fold (UART0_Putchar c s) in H1.
  destruct (UART0_Putchar c s) as [r s1]. cbn [snd] in H1.
  specialize (IH s1 H1). destruct (Putchar_seq cs s1) as [rs s2]. exact IH.
Qed.

(** A transmit-complete interrupt moves the oldest queued byte to UDR0:
    the emitted stream is the order in which bytes reach the wire. *)
Lemma isr_emitted s : tx_wf s -> emitted (USART_TX_vect s) = emitted s.
Proof.
  intros (Hlen & Ht & Hh). unfold USART_TX_vect, UART_BUFFER_SIZE in *.
  destruct (Z.eqb_spec (UartBufferNextByteToSend s) (UartBufferNextFree s))
    as [E|E]; [reflexivity|].
  cbn -[Z.eqb int16]. rewrite int16_small by lia.
  set (t' := if UartBufferNextByteToSend s + 1 =? 256
             then 0 else UartBufferNextByteToSend s + 1).
  assert (Hq : Z.to_nat (qlen s)
               = S (Z.to_nat ((UartBufferNextFree s - t') mod 256))).
  { unfold qlen, UART_BUFFER_SIZE, t'.
    destruct (Z.eqb_spec (UartBufferNextByteToSend s + 1) 256); lia. }
  assert (Hs : emitted s
    = (UDR0 s ++ [slot (UartBuffer s) (UartBufferNextByteToSend s)])
      ++ ((fun k : nat => slot (UartBuffer s) ((t' + Z.of_nat k) mod 256))
            <$> seq 0 (Z.to_nat ((UartBufferNextFree s - t') mod 256)))).
  { unfold emitted, queue. rewrite Hq. cbn [seq fmap list_fmap].
    rewrite <- app_assoc. cbn [app]. do 2 f_equal.
    - f_equal. unfold UART_BUFFER_SIZE. lia.
    - rewrite <- fmap_S_seq, <- list_fmap_compose.
      apply list_fmap_ext. intros i k _. cbn. f_equal.
      unfold UART_BUFFER_SIZE, t'.
      destruct (Z.eqb_spec (UartBufferNextByteToSend s + 1) 256); lia. }
  rewrite Hs. unfold t'.
  destruct (Z.eqb_spec (UartBufferNextByteToSend s + 1) 256); reflexivity.
Qed.

(** Without an interrupt inside the call, a rejected carriage-return
    means a rejected line-feed. *)
Lemma uninterrupted_cr_rejected s :
  tx_wf s -> fst (UART0_Putchar_body 13 s) = EOF ->
  fst (UART0_Putchar 10 s) = EOF.
Proof.
  intros Hwf Hcr.
  destruct (Z.eq_dec (UartSendingInProgress s) 0) as [E|E].
  { rewrite body_idle in Hcr by assumption. discriminate Hcr. }
  destruct (ring_full_dec s) as [F|F].
  - apply (putchar_full_status 10 s Hwf F E).
  - destruct (body_room 13 s Hwf E F) as (R & _). rewrite R in Hcr.
    discriminate Hcr.
Qed.

End TxStream.

Section TxStreamClaims.

Implicit Types (s : uart) (c : Z).

(** C3, as stated, fails: 129 calls with the line-feed, from the
    initialised driver and with no interrupt, are fewer than 255 calls,
    yet the last one returns EOF, because every line-feed takes two
    slots. *)
Lemma line_feeds_fill_ring_early :
  (length (replicate 129 10) <= 255)%nat /\
  fst (Putchar_seq (replicate 129 10) init_iuart) !! 128%nat = Some EOF /\
  ~ Forall (fun r => r = 0) (fst (Putchar_seq (replicate 129 10) init_iuart)).
Proof.
  assert (H : fst (Putchar_seq (replicate 129 10) init_iuart) !! 128%nat
              = Some EOF) by (vm_compute; reflexivity).
  split; [rewrite length_replicate; lia|]. split; [exact H|].
  intros Hall. pose proof (Forall_lookup_1 _ _ _ _ Hall H) as Habs.
  discriminate Habs.
Qed.

(** C3, amended.  From the initialised (empty, idle) driver and with no
    transmit-complete interrupt, a run of [UART0_Putchar] calls whose
    bytes number at most capacity - 1 = 255 once every line-feed is
    counted twice (itself and its carriage-return) has no call that
    returns EOF: every call returns 0. *)
Theorem writes_within_capacity_accepted cs :
  expanded_length cs <= 255 ->
  Forall (fun r => r = 0) (fst (Putchar_seq cs init_iuart)).
Proof.
  intros Hlen. apply putchar_seq_accepts; [apply init_wf|].
  change (in_flight init_iuart) with 0. lia.
Qed.

Lemma writes_within_capacity_accepted_witness :
  Forall (fun r => r = 0) (fst (Putchar_seq [104; 105; 10] init_iuart)).
Proof.
  apply (writes_within_capacity_accepted [104; 105; 10]).
  vm_compute. discriminate.
Defined.

(** C4, as stated, fails when the ring is full: the call with the
    line-feed then emits nothing at all and returns EOF. *)
Lemma newline_on_full_ring_emits_nothing :
  tx_reachable ring_full_example /\
  fst (UART0_Putchar 10 ring_full_example) = EOF /\
  emitted (snd (UART0_Putchar 10 ring_full_example))
    = emitted ring_full_example.
Proof.
  split; [apply putchar_seq_reachable, reach_init|].
  split; vm_compute; reflexivity.
Qed.

(** C4, amended.  When the ring has room for two more bytes (at most 254
    in flight; an idle transmitter has nothing queued), [UART0_Putchar]
    with the line-feed succeeds and adds exactly two bytes to the emitted
    stream: the carriage-return first, the line-feed second. *)
Theorem newline_emits_cr_then_lf s :
  tx_wf s -> in_flight s <= 254 ->
  (UartSendingInProgress s = 0 -> qlen s = 0) ->
  fst (UART0_Putchar 10 s) = 0 /\
  emitted (snd (UART0_Putchar 10 s)) = emitted s ++ [13; 10].
Proof.
  intros Hwf Hfl Hidle. rewrite Putchar_unfold. cbn [Z.eqb Pos.eqb].
  destruct (body_accepts 13 s Hwf) as (_ & Hwf1 & Hl1 & Hs1 & He1); [lia|].
  destruct (body_accepts 10 (snd (UART0_Putchar_body 13 s)) Hwf1)
    as (R & _ & _ & _ & He2); [lia|].
  split; [exact R|].
  rewrite He2 by (intros E; contradiction).
  rewrite He1 by assumption. now rewrite <- app_assoc.
Qed.

Lemma newline_emits_cr_then_lf_witness :
  fst (UART0_Putchar 10 init_iuart) = 0 /\
  emitted (snd (UART0_Putchar 10 init_iuart)) = emitted init_iuart ++ [13; 10].
Proof.
  apply (newline_emits_cr_then_lf init_iuart).
  - repeat split; vm_compute; congruence.
  - vm_compute. discriminate.
  - intros _. vm_compute. reflexivity.
Defined.

(** C9.  The status [UART0_Putchar] returns for the line-feed is the
    status of queueing the line-feed alone, in the state the
    carriage-return attempt (and any interrupt serviced after it) left
    behind; the carriage-return's own status plays no part.  And the case
    arises: on the full ring reached by 256 uninterrupted writes, the
    carriage-return is rejected with EOF, one transmit-complete interrupt
    frees a slot, the line-feed is queued and the call returns 0, the
    emitted stream having gained the line-feed only. *)
Theorem newline_status_discards_cr_status :
  (forall irqs s,
     fst (UART0_Putchar_irq irqs 10 s)
     = fst (UART0_Putchar_body 10
              (Nat.iter irqs USART_TX_vect (snd (UART0_Putchar_body 13 s))))) /\
  tx_reachable ring_full_example /\
  fst (UART0_Putchar_body 13 ring_full_example) = EOF /\
  fst (UART0_Putchar_irq 1 10 ring_full_example) = 0 /\
  emitted (snd (UART0_Putchar_irq 1 10 ring_full_example))
    = emitted ring_full_example ++ [10].
Proof.
  split; [reflexivity|].
  split; [apply putchar_seq_reachable, reach_init|].
  repeat split; vm_compute; reflexivity.
Qed.

End TxStreamClaims.

(** ** Line editor: basic facts *)

Section ReaderFacts.

Implicit Types (r : reader) (c : Z) (cp : nat).

Lemma putc_b c r : b (putc c r) = b r.
Proof. reflexivity. Qed.

Lemma putc_rxp c r : rxp (putc c r) = rxp r.
Proof. reflexivity. Qed.

Lemma putc_echo c r : echo (putc c r) = echo r ++ [c].
Proof. reflexivity. Qed.

Lemma erase_b r : b (erase r) = b r.
Proof. reflexivity. Qed.

Lemma erase_rxp r : rxp (erase r) = rxp r.
Proof. reflexivity. Qed.

Lemma erase_echo r : echo (erase r) = echo r ++ [8; 32; 8].
Proof. unfold erase. rewrite !putc_echo, <- !app_assoc. reflexivity. Qed.

Lemma redraw_spec cp r :
  b (redraw cp r) = b r /\ rxp (redraw cp r) = rxp r.
Proof.
  unfold redraw. generalize (take cp (b r)) as l. intros l.
  revert r. induction l as [|c l IH]; intros r; cbn [foldl]; [auto|].
  destruct (IH (putc c r)) as [Hb Hr]. now rewrite Hb, Hr.
Qed.

Lemma kill_line_spec cp : forall r,
  fst (kill_line cp r) = 0%nat /\
  b (snd (kill_line cp r)) = b r /\
  rxp (snd (kill_line cp r)) = rxp r.
Proof.
  induction cp as [|cp IH]; intros r; cbn [kill_line]; [auto|].
  destruct (IH (erase r)) as (H0 & Hb & Hr). auto.
Qed.

Lemma kill_word_spec cp : forall r,
  (fst (kill_word cp r) <= cp)%nat /\
  b (snd (kill_word cp r)) = b r /\
  rxp (snd (kill_word cp r)) = rxp r.
Proof.
  induction cp as [|cp IH]; intros r; cbn [kill_word]; [auto|].
  destruct (cell (b r) cp =? 32); [cbn; auto|].
  destruct (IH (erase r)) as (H0 & Hb & Hr). rewrite Hb, Hr.
  repeat split; auto with arith.
Qed.

Lemma printable_ge c : printable c = true -> 32 <= c.
Proof.
  unfold printable.
  destruct (Z.leb_spec 32 c), (Z.leb_spec c 126), (Z.leb_spec 160 c);
    cbn; intros; try lia; discriminate.
Qed.

(** A printable byte is stored and echoed, or answered with the bell
    when the cursor is at the last slot but one. *)
Lemma edit_printable c cp r :
  printable c = true ->
  edit c cp r =
    if (cp =? RX_BUFSIZE - 1)%nat then Continue cp (putc 7 r)
    else Continue (S cp) (putc c (set_b (<[cp := c]> (b r)) r)).
Proof.
  intros Hp. pose proof (printable_ge c Hp) as Hge. unfold edit.
  destruct (Z.eqb_spec c 13); [lia|].
  destruct (Z.eqb_spec c 10); [lia|].
  destruct (Z.eqb_spec c 9); [lia|].
  rewrite Hp. reflexivity.
Qed.

(** Ctrl-U runs the kill-line loop. *)
Lemma edit_kill_line cp r :
  edit 21 cp r = Continue (fst (kill_line cp r)) (snd (kill_line cp r)).
Proof.
  unfold edit. cbn -[kill_line]. now destruct (kill_line cp r).
Qed.

Lemma iter_received ev c cp r :
  received ev c -> getchar_iter ev cp r = edit c cp r.
Proof.
  intros (_ & Hfe & Hdor & Hc). unfold getchar_iter.
  rewrite Hfe, Hdor, Hc. reflexivity.
Qed.

Lemma loop_received ev c polls cp r :
  received ev c ->
  getchar_loop (ev :: polls) cp r =
    match edit c cp r with
    | Continue cp' r' => getchar_loop polls cp' r'
    | Break r' => (Broke, r', polls)
    | Return v r' => (Left v, r', polls)
    end.
Proof.
  intros Hrx. cbn [getchar_loop]. rewrite (iter_received ev c) by assumption.
  destruct Hrx as (Hrxc & _).
  destruct (Z.eqb_spec (Z.land (ev_UCSR0A ev) (_BV RXC0)) 0); [contradiction|].
  reflexivity.
Qed.

(** Polls after which the loop is still waiting can be followed by more. *)
Lemma loop_app pre : forall post cp r cp' r',
  getchar_loop pre cp r = (Waiting cp', r', []) ->
  getchar_loop (pre ++ post) cp r = getchar_loop post cp' r'.
Proof.
  induction pre as [|ev pre IH]; intros post cp r cp' r' H; cbn [app].
  - cbn in H. now inversion H.
  - cbn [getchar_loop] in *.
    destruct (Z.land (ev_UCSR0A ev) (_BV RXC0) =? 0); [now apply IH|].
    destruct (getchar_iter ev cp r) as [cp1 r1|r1|v r1];
      [now apply IH | discriminate H | discriminate H].
Qed.

Lemma rx_ok_received c : received (rx_ok c) (c mod 256).
Proof. repeat split; vm_compute; congruence. Qed.

End ReaderFacts.

(** ** Line editor: error codes and single keystrokes *)

Section ReaderKeys.

Implicit Types (r : reader) (c : Z) (cp : nat).

(** C1, as stated, fails: a poll with the overrun flag and a poll
    delivering the abort byte 0x03 both make [uart_getchar] return -1, so
    the caller cannot tell an overrun from an abort by the value. *)
Lemma overrun_and_abort_same_code :
  overrun_error (mkRx (Z.lor (_BV RXC0) (_BV DOR0)) 65) /\
  received (rx_ok 3) 3 /\
  fst (fst (uart_getchar [mkRx (Z.lor (_BV RXC0) (_BV DOR0)) 65] reader_init))
    = Returned (-1) /\
  fst (fst (uart_getchar [rx_ok 3] reader_init)) = Returned (-1).
Proof.
  split; [repeat split; vm_compute; congruence|].
  split; [repeat split; vm_compute; congruence|].
  split; vm_compute; reflexivity.
Qed.

(** C1, amended.  Wherever the collecting loop stands, a poll with the
    framing-error flag makes [uart_getchar] return _FDEV_EOF (-2), a poll
    with the overrun flag alone makes it return _FDEV_ERR (-1), and the
    abort byte 0x03 makes it return -1.  The framing-error code differs
    from the other two; the overrun and abort codes are the same value. *)
Theorem read_error_codes pre ev post r cp' r' :
  rxp r = None ->
  getchar_loop pre 0 r = (Waiting cp', r', []) ->
  (framing_error ev ->
   fst (fst (uart_getchar (pre ++ ev :: post) r)) = Returned _FDEV_EOF) /\
  (overrun_error ev ->
   fst (fst (uart_getchar (pre ++ ev :: post) r)) = Returned _FDEV_ERR) /\
  (received ev 3 ->
   fst (fst (uart_getchar (pre ++ ev :: post) r)) = Returned (-1)) /\
  _FDEV_EOF <> _FDEV_ERR /\ _FDEV_EOF <> -1 /\ _FDEV_ERR = -1.
Proof.
  intros Hrxp Hpre.
  assert (Hcall : uart_getchar (pre ++ ev :: post) r =
            match getchar_loop (ev :: post) cp' r' with
            | (Broke, r1, polls1) =>
                let '(res, r2) := next_char r1 in (res, r2, polls1)
            | (Left v, r1, polls1) => (Returned v, r1, polls1)
            | (Waiting cp, r1, polls1) => (Blocked cp, r1, polls1)
            end).
  { unfold uart_getchar. rewrite Hrxp.
    now rewrite (loop_app pre (ev :: post) 0 r cp' r' Hpre). }
  rewrite Hcall. clear Hcall.
  repeat split; try discriminate.
  - intros (Hrxc & Hfe). cbn [getchar_loop]. unfold getchar_iter.
    destruct (Z.eqb_spec (Z.land (ev_UCSR0A ev) (_BV RXC0)) 0); [contradiction|].
    destruct (Z.eqb_spec (Z.land (ev_UCSR0A ev) (_BV FE0)) 0); [contradiction|].
    reflexivity.
  - intros (Hrxc & Hfe & Hdor). cbn [getchar_loop]. unfold getchar_iter.
    destruct (Z.eqb_spec (Z.land (ev_UCSR0A ev) (_BV RXC0)) 0); [contradiction|].
    rewrite Hfe.
    destruct (Z.eqb_spec (Z.land (ev_UCSR0A ev) (_BV DOR0)) 0); [contradiction|].
    reflexivity.
  - intros Hrx. rewrite (loop_received ev 3) by assumption. reflexivity.
Qed.

Lemma read_error_codes_witness :
  (framing_error (mkRx (Z.lor (_BV RXC0) (_BV FE0)) 0) ->
   fst (fst (uart_getchar
               ([rx_ok 97] ++ mkRx (Z.lor (_BV RXC0) (_BV FE0)) 0 :: [])
               reader_init)) = Returned _FDEV_EOF) /\
  (overrun_error (mkRx (Z.lor (_BV RXC0) (_BV FE0)) 0) ->
   fst (fst (uart_getchar
               ([rx_ok 97] ++ mkRx (Z.lor (_BV RXC0) (_BV FE0)) 0 :: [])
               reader_init)) = Returned _FDEV_ERR) /\
  (received (mkRx (Z.lor (_BV RXC0) (_BV FE0)) 0) 3 ->
   fst (fst (uart_getchar
               ([rx_ok 97] ++ mkRx (Z.lor (_BV RXC0) (_BV FE0)) 0 :: [])
               reader_init)) = Returned (-1)) /\
  _FDEV_EOF <> _FDEV_ERR /\ _FDEV_EOF <> -1 /\ _FDEV_ERR = -1.
Proof.
  apply (read_error_codes [rx_ok 97] (mkRx (Z.lor (_BV RXC0) (_BV FE0)) 0) []
           reader_init 1
           (snd (fst (getchar_loop [rx_ok 97] 0 reader_init)))).
  - reflexivity.
  - vm_compute. reflexivity.
Defined.

(** C10.  When the byte before the cursor is a space, the Ctrl-W
    keystroke (0x17) changes nothing: the loop goes on with the same
    cursor and the same reader, that is the same line buffer, the same
    echo log and the same transport state. *)
Theorem ctrl_w_after_space ev cp r :
  received ev 23 -> (0 < cp)%nat -> cell (b r) (cp - 1) = 32 ->
  getchar_iter ev cp r = Continue cp r /\
  forall polls, getchar_loop (ev :: polls) cp r = getchar_loop polls cp r.
Proof.
  intros Hrx Hcp Hsp.
  assert (He : edit 23 cp r = Continue cp r).
  { unfold edit. cbn -[kill_word].
    destruct cp as [|cp]; [lia|]. cbn [kill_word].
    replace (S cp - 1)%nat with cp in Hsp by lia. now rewrite Hsp. }
  split.
  - now rewrite (iter_received ev 23).
  - intros polls. now rewrite (loop_received ev 23), He.
Qed.

Lemma ctrl_w_after_space_witness :
  let r := mkReader ([102; 111; 111; 32] ++ replicate 76 0) None init_iuart [] in
  getchar_iter (rx_ok 23) 4 r = Continue 4 r /\
  forall polls, getchar_loop (rx_ok 23 :: polls) 4 r = getchar_loop polls 4 r.
Proof.
  apply (ctrl_w_after_space (rx_ok 23) 4
           (mkReader ([102; 111; 111; 32] ++ replicate 76 0) None init_iuart [])).
  - repeat split; vm_compute; congruence.
  - lia.
  - vm_compute. reflexivity.
Defined.

(** C7.  From the initial reader, the input a, b, c, backspace,
    backspace, d, newline makes three calls of [uart_getchar] return
    'a', 'd', '\n': the line buffer then starts with "ad\n", all polls are
    consumed and no line is pending.  The echo requests are
    a b c \b ' ' \b \b ' ' \b d \n, in which the erase sequence
    backspace, space, backspace occurs exactly twice; the same holds for
    the bytes emitted toward the hardware. *)
Theorem edit_abc_bs_bs_d :
  let polls := rx_ok <$> [97; 98; 99; 8; 8; 100; 10] in
  let run := getchar_n 3 polls reader_init in
  let r := snd (fst run) in
  fst (fst run) = [97; 100; 10] /\
  snd run = [] /\
  rxp r = None /\
  take 3 (b r) = [97; 100; 10] /\
  echo r = [97; 98; 99; 8; 32; 8; 8; 32; 8; 100; 10] /\
  occurrences [8; 32; 8] (echo r) = 2%nat /\
  emitted (tx r) = [97; 98; 99; 8; 32; 8; 8; 32; 8; 100; 13; 10] /\
  occurrences [8; 32; 8] (emitted (tx r)) = 2%nat.
Proof. vm_compute. repeat split; reflexivity. Qed.

End ReaderKeys.

(** ** Line editor: filling the line buffer *)

Section ReaderLimit.

Implicit Types (r : reader) (c : Z) (cp : nat).

(** Printable bytes arriving with the cursor at [cp]: those that fit
    before slot 79 are stored from the cursor on and echoed, the others
    are answered with a bell each and leave the buffer alone. *)
Lemma collect_printables l : forall polls cp r,
  length (b r) = RX_BUFSIZE ->
  Forall2 received polls l ->
  Forall (fun c => printable c = true) l ->
  (cp <= 79)%nat ->
  exists r',
    getchar_loop polls cp r
      = (Waiting (Nat.min (cp + length l) 79), r', []) /\
    length (b r') = RX_BUFSIZE /\
    take (Nat.min (cp + length l) 79) (b r')
      = take cp (b r) ++ take (79 - cp) l /\
    drop (Nat.min (cp + length l) 79) (b r')
      = drop (Nat.min (cp + length l) 79) (b r) /\
    echo r' = echo r ++ take (79 - cp) l
                     ++ replicate (length l - (79 - cp)) 7.
Proof.
  induction l as [|c l IH]; intros polls cp r Hlen Hrx Hpr Hcp.
  - inversion Hrx; subst. exists r. cbn [getchar_loop length].
    replace (Nat.min (cp + 0) 79) with cp by lia.
    rewrite take_nil. cbn [replicate]. rewrite !app_nil_r.
    repeat split; auto.
  - inversion Hrx as [|ev ? polls' ? Hev Hrest]; subst.
    inversion Hpr as [|? ? Hc Hl]; subst.
    rewrite (loop_received ev c) by assumption.
    rewrite edit_printable by assumption.
    destruct (Nat.eqb_spec cp (RX_BUFSIZE - 1)) as [E|E];
      unfold RX_BUFSIZE in E; cbn in E.
    + subst cp.
      destruct (IH polls' 79%nat (putc 7 r)) as (r' & Hloop & Hlen' & Ht & Hd & He);
        auto.
      exists r'. cbn [length].
      replace (Nat.min (79 + S (length l)) 79) with 79%nat by lia.
      replace (Nat.min (79 + length l) 79) with 79%nat in * by lia.
      replace (79 - 79)%nat with 0%nat in * by lia.
      rewrite take_0 in *. rewrite putc_b in *. rewrite putc_echo in He.
      repeat split; auto.
      rewrite He. cbn [app]. rewrite <- app_assoc. cbn [app].
      replace (S (length l) - 0)%nat with (S (length l - 0)) by lia.
      reflexivity.
    + assert (Hlt : (cp < 79)%nat) by lia.
      destruct (IH polls' (S cp) (putc c (set_b (<[cp := c]> (b r)) r)))
        as (r' & Hloop & Hlen' & Ht & Hd & He); auto.
      { cbn. rewrite length_insert. exact Hlen. }
      exists r'. cbn [length].
      replace (cp + S (length l))%nat with (S cp + length l)%nat by lia.
      rewrite putc_b in *. cbn [b set_b] in *. rewrite putc_echo in He.
      cbn [echo set_b] in He.
      repeat split; auto.
      * rewrite Ht.
        rewrite (take_S_r _ cp c)
          by (apply list_lookup_insert_eq; rewrite Hlen; unfold RX_BUFSIZE; lia).
        rewrite take_insert_ge by lia.
        replace (79 - cp)%nat with (S (79 - S cp)) by lia.
        rewrite <- app_assoc. reflexivity.
      * rewrite Hd. apply drop_insert_lt. lia.
      * rewrite He. rewrite <- app_assoc. cbn [app].
        replace (79 - cp)%nat with (S (79 - S cp)) by lia.
        cbn [take]. cbn [app].
        replace (S (length l) - S (79 - S cp))%nat
          with (length l - (79 - S cp))%nat by lia.
        reflexivity.
Qed.

End ReaderLimit.

(** ** Line editor: completed lines *)

Section ReaderLines.

Implicit Types (r : reader) (c : Z) (cp : nat).

Lemma collecting_le cp cp' r r' :
  collecting cp r -> (cp' <= cp)%nat -> b r' = b r -> rxp r' = rxp r ->
  collecting cp' r'.
Proof.
  intros (Hlen & Hcp & Hrxp & Hpr) Hle Hb Hr. unfold collecting.
  rewrite Hb, Hr. repeat split; auto; [lia|].
  intros i Hi. apply Hpr. lia.
Qed.

Lemma cell_lookup (a : list Z) i x : a !! i = Some x -> cell a i = x.
Proof. intros H. unfold cell. now rewrite H. Qed.

Lemma cell_insert_ne (a : list Z) i j c :
  i <> j -> cell (<[i := c]> a) j = cell a j.
Proof. intros Hne. unfold cell. now rewrite list_lookup_insert_ne. Qed.

Lemma cell_insert_eq (a : list Z) i c :
  (i < length a)%nat -> cell (<[i := c]> a) i = c.
Proof. intros Hlt. unfold cell. now rewrite list_lookup_insert_eq. Qed.

(** One pass through the loop body keeps the invariant, or completes a
    line at the cursor. *)
Lemma edit_collecting c cp r :
  collecting cp r ->
  match edit c cp r with
  | Continue cp' r' => collecting cp' r'
  | Break r' => line_ready cp r'
  | Return _ _ => True
  end.
Proof.
  intros Hc. pose proof Hc as (Hlen & Hcp & Hrxp & Hpr).
  unfold RX_BUFSIZE in Hcp, Hlen. cbn in Hcp.
  unfold edit.
  set (c1 := if c =? 13 then 10 else c).
  destruct (Z.eqb_spec c1 10) as [E10|E10].
  { unfold line_ready. cbn [b rxp set_rxp putc set_b]. rewrite length_insert.
    repeat split; auto.
    - rewrite list_lookup_insert_eq by lia. now rewrite E10.
    - intros i Hi. rewrite cell_insert_ne by lia. auto. }
  set (c2 := if c1 =? 9 then 32 else c1).
  destruct (printable c2) eqn:Hp2.
  { destruct (Nat.eqb_spec cp (RX_BUFSIZE - 1)) as [E|E];
      unfold RX_BUFSIZE in E; cbn in E.
    - apply (collecting_le cp cp r); auto.
    - unfold collecting. cbn [b rxp putc set_b]. rewrite length_insert.
      unfold RX_BUFSIZE. cbn. repeat split; auto; [lia|].
      intros i Hi. destruct (Nat.eq_dec i cp) as [->|Hne].
      + rewrite cell_insert_eq by lia. exact Hp2.
      + rewrite cell_insert_ne by lia. apply Hpr. lia. }
  destruct (c2 =? ctrl 99); [exact I|].
  destruct ((c2 =? 8) || (c2 =? 127)).
  { destruct (0 <? cp)%nat.
    - apply (collecting_le cp (cp - 1) r); auto. lia.
    - exact Hc. }
  destruct (c2 =? ctrl 114).
  { destruct (redraw_spec cp (putc 13 r)) as [Hb Hr].
    apply (collecting_le cp cp r); auto. }
  destruct (c2 =? ctrl 117).
  { destruct (kill_line_spec cp r) as (H0 & Hb & Hr).
    destruct (kill_line cp r) as [cp1 r1]. cbn [fst snd] in *.
    apply (collecting_le cp cp1 r); auto. lia. }
  destruct (c2 =? ctrl 119).
  { destruct (kill_word_spec cp r) as (H0 & Hb & Hr).
    destruct (kill_word cp r) as [cp1 r1]. cbn [fst snd] in *.
    apply (collecting_le cp cp1 r); auto. }
  exact Hc.
Qed.

(** Only a line terminator leaves the loop body by the break. *)
Lemma edit_break c cp r r' :
  edit c cp r = Break r' -> c = 10 \/ c = 13.
Proof.
  unfold edit.
  destruct (Z.eqb_spec c 13) as [E13|E13]; [auto|].
  destruct (Z.eqb_spec c 10) as [E10|E10]; [auto|].
  destruct (printable _); [destruct (_ =? _)%nat; discriminate|].
  destruct (_ =? ctrl 99); [discriminate|].
  destruct (_ || _); [destruct (0 <? cp)%nat; discriminate|].
  destruct (_ =? ctrl 114); [discriminate|].
  destruct (_ =? ctrl 117); [destruct (kill_line cp r); discriminate|].
  destruct (_ =? ctrl 119); [destruct (kill_word cp r); discriminate|].
  discriminate.
Qed.

(** The loop body only ever returns a negative code. *)
Lemma edit_return c cp r v r' :
  edit c cp r = Return v r' -> v = -1.
Proof.
  unfold edit.
  destruct (_ =? 10); [discriminate|].
  destruct (printable _); [destruct (_ =? _)%nat; discriminate|].
  destruct (_ =? ctrl 99); [intros H; now inversion H|].
  destruct (_ || _); [destruct (0 <? cp)%nat; discriminate|].
  destruct (_ =? ctrl 114); [discriminate|].
  destruct (_ =? ctrl 117); [destruct (kill_line cp r); discriminate|].
  destruct (_ =? ctrl 119); [destruct (kill_word cp r); discriminate|].
  discriminate.
Qed.

Lemma iter_cases ev cp r :
  (exists v, v < 0 /\ getchar_iter ev cp r = Return v r) \/
  (Z.land (ev_UCSR0A ev) (_BV FE0) = 0 /\
   Z.land (ev_UCSR0A ev) (_BV DOR0) = 0 /\
   getchar_iter ev cp r = edit (ev_ReceivedByte ev mod 256) cp r).
Proof.
  unfold getchar_iter.
  destruct (Z.eqb_spec (Z.land (ev_UCSR0A ev) (_BV FE0)) 0) as [Hfe|Hfe]; cbn [negb].
  - destruct (Z.eqb_spec (Z.land (ev_UCSR0A ev) (_BV DOR0)) 0) as [Hd|Hd]; cbn [negb].
    + right. auto.
    + left. exists _FDEV_ERR. split; [reflexivity | reflexivity].
  - left. exists _FDEV_EOF. split; reflexivity.
Qed.

(** The collecting loop: how it can end. *)
Lemma loop_exits polls : forall cp r ex r1 rest,
  collecting cp r ->
  getchar_loop polls cp r = (ex, r1, rest) ->
  match ex with
  | Broke =>
      (exists n, line_ready n r1) /\
      exists used ev, polls = used ++ ev :: rest /\
                      (received ev 10 \/ received ev 13)
  | Left v => v < 0
  | Waiting cp' => collecting cp' r1
  end.
Proof.
  induction polls as [|ev polls IH]; intros cp r ex r1 rest Hc Hloop.
  - cbn in Hloop. inversion Hloop; subst. exact Hc.
  - cbn [getchar_loop] in Hloop.
    destruct (Z.eqb_spec (Z.land (ev_UCSR0A ev) (_BV RXC0)) 0) as [Hrxc|Hrxc].
    + specialize (IH cp r ex r1 rest Hc Hloop).
      destruct ex; auto.
      destruct IH as (Hn & used & ev' & -> & Hev').
      split; [exact Hn|]. exists (ev :: used), ev'. auto.
    + destruct (iter_cases ev cp r) as [(v & Hv & Hit)|(Hfe & Hdor & Hit)];
        rewrite Hit in Hloop.
      * inversion Hloop; subst. exact Hv.
      * pose proof (edit_collecting (ev_ReceivedByte ev mod 256) cp r Hc) as Hinv.
        destruct (edit (ev_ReceivedByte ev mod 256) cp r)
          as [cp' r'|r'|v r'] eqn:Hed.
        -- specialize (IH cp' r' ex r1 rest Hinv Hloop).
           destruct ex; auto.
           destruct IH as (Hn & used & ev' & -> & Hev').
           split; [exact Hn|]. exists (ev :: used), ev'. auto.
        -- inversion Hloop; subst.
           split; [exists cp; exact Hinv|].
           exists [], ev. split; [reflexivity|].
           apply edit_break in Hed. unfold received.
           destruct Hed as [E|E]; [left | right]; auto.
        -- inversion Hloop; subst. apply edit_return in Hed. lia.
Qed.

End ReaderLines.

Section ReaderDrain.

Implicit Types (r : reader) (c : Z) (cp : nat).

(** Draining: with [rxp] at [b + i] and the line-feed [k] bytes further,
    the next [k + 1] calls return those bytes in buffer order, consume no
    poll, leave buffer, transport and echo alone, and end with [rxp]
    null. *)
Lemma drain_line k : forall i r polls,
  rxp r = Some i ->
  b r !! (i + k)%nat = Some 10 ->
  (forall j, (i <= j < i + k)%nat -> cell (b r) j <> 10) ->
  getchar_n (S k) polls r
    = (take (S k) (drop i (b r)), set_rxp None r, polls).
Proof.
  induction k as [|k IH]; intros i r polls Hrxp Hlf Hbody.
  - replace (i + 0)%nat with i in Hlf by lia.
    cbn [getchar_n]. unfold uart_getchar, next_char. rewrite Hrxp.
    rewrite (cell_lookup _ _ _ Hlf). cbn [Z.eqb Pos.eqb].
    rewrite (drop_S _ _ _ Hlf). reflexivity.
  - assert (Hi : is_Some (b r !! i)).
    { apply lookup_lt_is_Some. apply lookup_lt_Some in Hlf. lia. }
    destruct Hi as [x Hx].
    assert (Hne : x <> 10).
    { specialize (Hbody i). rewrite (cell_lookup _ _ _ Hx) in Hbody.
      apply Hbody. lia. }
    specialize (IH (S i) (set_rxp (Some (S i)) r) polls).
    cbn [b rxp set_rxp] in IH.
    change (getchar_n (S (S k)) polls r)
      with (match uart_getchar polls r with
            | (Returned v, r', polls') =>
                let '(vs, r'', polls'') := getchar_n (S k) polls' r' in
                (v :: vs, r'', polls'')
            | (_, r', polls') => ([], r', polls')
            end).
    unfold uart_getchar, next_char. rewrite Hrxp.
    rewrite (cell_lookup _ _ _ Hx).
    destruct (Z.eqb_spec x 10) as [|_]; [contradiction|].
    rewrite IH; [| reflexivity
                 | replace (S i + k)%nat with (i + S k)%nat by lia; exact Hlf
                 | intros j Hj; apply Hbody; lia ].
    rewrite (drop_S _ _ _ Hx). reflexivity.
Qed.

(** [uart_getchar] never reads through a null [rxp]. *)
Lemma uart_getchar_no_fault polls r :
  length (b r) = RX_BUFSIZE ->
  fst (fst (uart_getchar polls r)) <> Fault.
Proof.
  intros Hlen. unfold uart_getchar.
  destruct (rxp r) as [i|] eqn:Hrxp.
  - unfold next_char. rewrite Hrxp. discriminate.
  - destruct (getchar_loop polls 0 r) as [[ex r1] rest] eqn:Hloop.
    assert (Hc : collecting 0 r).
    { repeat split; auto; [unfold RX_BUFSIZE; lia | intros i Hi; lia]. }
    pose proof (loop_exits polls 0%nat r ex r1 rest Hc Hloop) as Hex.
    destruct ex; try discriminate.
    destruct Hex as ((n & _ & _ & Hr & _) & _).
    unfold next_char. rewrite Hr. discriminate.
Qed.

(** C8.  A call of [uart_getchar] made while no line is pending returns
    a byte (a non-negative value, unlike the error codes) only after the
    loop has been left by a line terminator: at that moment the line
    buffer holds a whole line, at most 79 printable bytes followed by the
    line-feed.  The calls from this one on return exactly that line in
    buffer order, line-feed last, without consuming another poll, and
    after the line-feed [rxp] is null again: the reader is back to
    collecting. *)
Theorem only_completed_lines_returned polls r v r1 rest :
  rxp r = None ->
  length (b r) = RX_BUFSIZE ->
  uart_getchar polls r = (Returned v, r1, rest) ->
  0 <= v ->
  exists l : list Z,
    (length l <= 79)%nat /\
    Forall (fun c => printable c = true) l /\
    take (S (length l)) (b r1) = l ++ [10] /\
    getchar_n (S (length l)) polls r = (l ++ [10], set_rxp None r1, rest) /\
    exists used ev,
      polls = used ++ ev :: rest /\ (received ev 10 \/ received ev 13).
Proof.
  intros Hrxp Hlen Hcall Hv.
  assert (Hc : collecting 0 r).
  { repeat split; auto; [unfold RX_BUFSIZE; lia | intros i Hi; lia]. }
  assert (Hfirst : forall k, getchar_n (S k) polls r =
            match uart_getchar polls r with
            | (Returned v, r', polls') =>
                let '(vs, r'', polls'') := getchar_n k polls' r' in
                (v :: vs, r'', polls'')
            | (_, r', polls') => ([], r', polls')
            end) by reflexivity.
  unfold uart_getchar in Hcall, Hfirst. rewrite Hrxp in Hcall, Hfirst.
  destruct (getchar_loop polls 0 r) as [[ex r0] rest0] eqn:Hloop.
  pose proof (loop_exits polls 0%nat r ex r0 rest0 Hc Hloop) as Hex.
  destruct ex as [|v0|cp0].
  - destruct Hex as ((n & Hn & Hlen0 & Hr0 & Hlf & Hpr) & Hterm).
    unfold RX_BUFSIZE in Hn, Hlen0. cbn in Hn.
    pose proof (drain_line n 0%nat r0 rest0 Hr0 Hlf) as Hdrain.
    rewrite drop_0 in Hdrain.
    change (getchar_n (S n) rest0 r0)
      with (match uart_getchar rest0 r0 with
            | (Returned v, r', polls') =>
                let '(vs, r'', polls'') := getchar_n n polls' r' in
                (v :: vs, r'', polls'')
            | (_, r', polls') => ([], r', polls')
            end) in Hdrain.
    unfold uart_getchar in Hdrain. rewrite Hr0 in Hdrain.
    destruct (next_char r0) as [res r2] eqn:Hnext.
    inversion Hcall; subst res r2 rest0. clear Hcall.
    assert (Hb : b r1 = b r0 /\ set_rxp None r1 = set_rxp None r0).
    { unfold next_char in Hnext. rewrite Hr0 in Hnext.
      destruct (cell (b r0) 0 =? 10); inversion Hnext; subst r1; auto. }
    destruct Hb as [Hb Hset].
    exists (take n (b r0)).
    assert (Hln : length (take n (b r0)) = n)
      by (rewrite length_take; lia).
    rewrite Hln. repeat split.
    + lia.
    + apply Forall_forall. intros x Hx.
      apply list_elem_of_lookup in Hx as [i Hi].
      pose proof (lookup_lt_Some _ _ _ Hi) as Hlt. rewrite Hln in Hlt.
      rewrite lookup_take_lt in Hi by lia.
      specialize (Hpr i Hlt). unfold cell in Hpr. now rewrite Hi in Hpr.
    + rewrite Hb. apply take_S_r. exact Hlf.
    + rewrite Hfirst, Hset, <- (take_S_r _ _ _ Hlf).
      apply Hdrain. intros j Hj. specialize (Hpr j).
      intros E. rewrite E in Hpr. discriminate Hpr. lia.
    + exact Hterm.
  - inversion Hcall; subst. lia.
  - discriminate Hcall.
Qed.

Lemma only_completed_lines_returned_witness :
  exists l : list Z,
    (length l <= 79)%nat /\
    Forall (fun c => printable c = true) l /\
    take (S (length l))
         (b (snd (fst (uart_getchar (rx_ok <$> [104; 105; 10]) reader_init))))
      = l ++ [10] /\
    getchar_n (S (length l)) (rx_ok <$> [104; 105; 10]) reader_init
      = (l ++ [10],
         set_rxp None
           (snd (fst (uart_getchar (rx_ok <$> [104; 105; 10]) reader_init))),
         []) /\
    exists used ev,
      rx_ok <$> [104; 105; 10] = used ++ ev :: [] /\
      (received ev 10 \/ received ev 13).
Proof.
  apply (only_completed_lines_returned (rx_ok <$> [104; 105; 10]) reader_init
           104 (snd (fst (uart_getchar (rx_ok <$> [104; 105; 10]) reader_init)))
           []).
  - reflexivity.
  - reflexivity.
  - vm_compute. reflexivity.
  - lia.
Defined.

End ReaderDrain.

(** * Further properties of the transmit engine *)

Section TxMore.

Implicit Types (s : uart) (c : Z).

Lemma length_queue s : length (queue s) = Z.to_nat (qlen s).
Proof. unfold queue. now rewrite length_fmap, length_seq. Qed.

Lemma queue_nil_iff s :
  tx_wf s ->
  (queue s = [] <-> UartBufferNextFree s = UartBufferNextByteToSend s).
Proof.
  intros (_ & Ht & Hh). pose proof (length_queue s) as Hl.
  unfold qlen, UART_BUFFER_SIZE in *. split.
  - intros E. rewrite E in Hl. cbn in Hl. lia.
  - intros E. apply length_zero_iff_nil. rewrite Hl, E.
    now replace (UartBufferNextByteToSend s - UartBufferNextByteToSend s) with 0 by lia.
Qed.

(** Any byte: accepted at the end of the stream, or rejected with the
    stream as it was. *)
Lemma body_stream c s :
  tx_wf s -> (UartSendingInProgress s = 0 -> qlen s = 0) ->
  let r := UART0_Putchar_body c s in
  (fst r = 0 \/ fst r = EOF) /\
  (fst r = EOF <-> UartSendingInProgress s <> 0 /\ ring_full s) /\
  emitted (snd r) = emitted s ++ (if fst r =? 0 then [c] else []) /\
  UartSendingInProgress (snd r) <> 0 /\
  tx_wf (snd r).
Proof.
  intros Hwf Hidle. cbv zeta.
  destruct (Z.eq_dec (UartSendingInProgress s) 0) as [E|E].
  - destruct (body_accepts c s Hwf) as (R & Hwf' & _ & Hs & He).
    { unfold in_flight. rewrite E, (Hidle E). cbn. lia. }
    rewrite R. cbn [Z.eqb].
    split; [now left|].
    split; [split; [discriminate | intros [H _]; contradiction]|].
    split; [now apply He|]. split; assumption.
  - destruct (ring_full_dec s) as [F|F].
    + destruct (body_full c s Hwf E F) as (R & _ & _ & Hs & Hu & Hq & Hwf').
      rewrite R. cbn. rewrite app_nil_r. unfold emitted. rewrite Hu, Hq.
      split; [now right|].
      split; [split; auto|].
      split; [reflexivity|]. split; [congruence | assumption].
    + destruct (body_room c s Hwf E F) as (R & _ & Hs & Hu & Hq & _ & Hwf').
      rewrite R. cbn [Z.eqb]. unfold emitted. rewrite Hu, Hq, app_assoc.
      split; [now left|].
      split; [split; [discriminate | intros [_ H]; contradiction]|].
      split; [reflexivity|]. split; [congruence | assumption].
Qed.

(** X1.  For a byte other than the line-feed, [UART0_Putchar] returns
    0 or EOF, and it returns EOF exactly when a transmission is in
    progress and the ring is full. *)
Theorem putchar_eof_iff_busy_and_full c s :
  tx_wf s -> c <> 10 ->
  (fst (UART0_Putchar c s) = 0 \/ fst (UART0_Putchar c s) = EOF) /\
  (fst (UART0_Putchar c s) = EOF <->
   UartSendingInProgress s <> 0 /\ ring_full s).
Proof.
  intros Hwf Hc. rewrite Putchar_unfold.
  destruct (Z.eqb_spec c 10) as [|_]; [contradiction|].
  destruct (Z.eq_dec (UartSendingInProgress s) 0) as [E|E].
  - rewrite body_idle by assumption. cbn [fst]. split; [now left|].
    split; [discriminate | intros [H _]; contradiction].
  - destruct (ring_full_dec s) as [F|F].
    + destruct (body_full c s Hwf E F) as (R & _). rewrite R.
      split; [now right|]. split; auto.
    + destruct (body_room c s Hwf E F) as (R & _). rewrite R.
      split; [now left|].
      split; [discriminate | intros [_ H]; contradiction].
Qed.

Lemma putchar_eof_iff_busy_and_full_witness :
  (fst (UART0_Putchar 65 ring_full_example) = 0 \/
   fst (UART0_Putchar 65 ring_full_example) = EOF) /\
  (fst (UART0_Putchar 65 ring_full_example) = EOF <->
   UartSendingInProgress ring_full_example <> 0 /\
   ring_full ring_full_example).
Proof.
  apply (putchar_eof_iff_busy_and_full 65 ring_full_example).
  - repeat split; vm_compute; congruence.
  - discriminate.
Defined.

(** X2.  In a well-formed state whose ring is empty whenever the
    transmitter is idle, a call of [UART0_Putchar] changes the emitted
    stream only at its end: the carriage-return of a line-feed is added
    if its own attempt was accepted, then the byte itself is added if the
    call returns 0.  So a line-feed can leave a bare carriage-return
    behind, and nothing already accepted is lost or reordered. *)
Theorem putchar_extends_stream c s :
  tx_wf s -> (UartSendingInProgress s = 0 -> qlen s = 0) ->
  emitted (snd (UART0_Putchar c s))
  = emitted s
    ++ (if c =? 10
        then (if fst (UART0_Putchar_body 13 s) =? 0 then [13] else [])
        else [])
    ++ (if fst (UART0_Putchar c s) =? 0 then [c] else []).
Proof.
  intros Hwf Hidle. rewrite Putchar_unfold. destruct (c =? 10).
  - destruct (body_stream 13 s Hwf Hidle) as (_ & _ & He1 & Hs1 & Hwf1).
    destruct (body_stream c (snd (UART0_Putchar_body 13 s)) Hwf1)
      as (_ & _ & He2 & _); [intros E; contradiction|].
    rewrite He2, He1. now rewrite <- app_assoc.
  - destruct (body_stream c s Hwf Hidle) as (_ & _ & He & _).
    rewrite He. reflexivity.
Qed.

Lemma putchar_extends_stream_witness :
  let s := snd (Putchar_seq (replicate 255 65) init_iuart) in
  emitted (snd (UART0_Putchar 10 s))
  = emitted s
    ++ (if 10 =? 10
        then (if fst (UART0_Putchar_body 13 s) =? 0 then [13] else [])
        else [])
    ++ (if fst (UART0_Putchar 10 s) =? 0 then [10] else []).
Proof.
  apply (putchar_extends_stream 10
           (snd (Putchar_seq (replicate 255 65) init_iuart))).
  - repeat split; vm_compute; congruence.
  - vm_compute. discriminate.
Defined.

End TxMore.

Section TxDrain.

Implicit Types (s : uart) (c : Z).

(** One transmit-complete interrupt, seen on the queue. *)
Lemma isr_queue s :
  tx_wf s ->
  match queue s with
  | [] =>
      UDR0 (USART_TX_vect s) = UDR0 s /\
      queue (USART_TX_vect s) = [] /\
      UartSendingInProgress (USART_TX_vect s) = 0
  | x :: q =>
      UDR0 (USART_TX_vect s) = UDR0 s ++ [x] /\
      queue (USART_TX_vect s) = q /\
      UartSendingInProgress (USART_TX_vect s) = 1
  end.
Proof.
  intros Hwf. pose proof (isr_emitted s Hwf) as Hem.
  pose proof (queue_nil_iff s Hwf) as Hnil.
  pose proof Hwf as (Hlen & Ht & Hh).
  unfold emitted in Hem. unfold USART_TX_vect in *.
  destruct (Z.eqb_spec (UartBufferNextByteToSend s) (UartBufferNextFree s))
    as [E|E].
  - destruct Hnil as [_ Hnil]. rewrite Hnil by congruence.
    change (queue (set_SendingInProgress 0 s)) with (queue s).
    rewrite Hnil by congruence. repeat split.
  - destruct (queue s) as [|x q] eqn:Hq.
    { destruct Hnil as [Hnil _]. exfalso. apply E. symmetry. now apply Hnil. }
    unfold UART_BUFFER_SIZE in *.
    cbn -[Z.eqb int16] in *. rewrite int16_small in * by lia.
    destruct (Z.eqb_spec (UartBufferNextByteToSend s + 1) 256);
      match goal with
      | |- UDR0 ?s' = _ /\ _ =>
          assert (Hu : UDR0 s' = UDR0 s
                         ++ [slot (UartBuffer s) (UartBufferNextByteToSend s)])
            by reflexivity;
          assert (Hs : UartSendingInProgress s' = 1) by reflexivity;
          rewrite Hu in Hem; rewrite Hu, Hs;
          rewrite <- app_assoc in Hem; apply app_inv_head in Hem;
          cbn [app] in Hem; inversion Hem; auto
      end.
Qed.

(** X3.  The transmit-complete interrupt sends in first-in first-out
    order: with bytes queued, it stores the oldest one to UDR0, leaves
    the others queued in their order and keeps the flag at 1; with
    nothing queued, it stores nothing and clears the flag. *)
Theorem tx_interrupt_sends_oldest s :
  tx_wf s ->
  match queue s with
  | [] =>
      UDR0 (USART_TX_vect s) = UDR0 s /\
      queue (USART_TX_vect s) = [] /\
      UartSendingInProgress (USART_TX_vect s) = 0
  | x :: q =>
      UDR0 (USART_TX_vect s) = UDR0 s ++ [x] /\
      queue (USART_TX_vect s) = q /\
      UartSendingInProgress (USART_TX_vect s) = 1
  end.
Proof. intros Hwf. destruct (queue s) eqn:E;
  pose proof (isr_queue s Hwf) as H; rewrite E in H; exact H. Qed.

Lemma tx_interrupt_sends_oldest_witness :
  let s := snd (Putchar_seq [104; 105; 33] init_iuart) in
  match queue s with
  | [] =>
      UDR0 (USART_TX_vect s) = UDR0 s /\
      queue (USART_TX_vect s) = [] /\
      UartSendingInProgress (USART_TX_vect s) = 0
  | x :: q =>
      UDR0 (USART_TX_vect s) = UDR0 s ++ [x] /\
      queue (USART_TX_vect s) = q /\
      UartSendingInProgress (USART_TX_vect s) = 1
  end.
Proof.
  apply (tx_interrupt_sends_oldest (snd (Putchar_seq [104; 105; 33] init_iuart))).
  repeat split; vm_compute; congruence.
Defined.

Lemma drain_queue n : forall s,
  tx_wf s -> length (queue s) = n ->
  UDR0 (Nat.iter n USART_TX_vect s) = UDR0 s ++ queue s /\
  queue (Nat.iter n USART_TX_vect s) = [] /\
  tx_wf (Nat.iter n USART_TX_vect s).
Proof.
  induction n as [|n IH]; intros s Hwf Hlen.
  - apply length_zero_iff_nil in Hlen. rewrite Hlen, app_nil_r. cbn. auto.
  - pose proof (isr_queue s Hwf) as Hq.
    destruct (queue s) as [|x q] eqn:E; [discriminate Hlen|].
    destruct Hq as (Hu & Hq & _).
    rewrite Nat.iter_succ_r.
    destruct (IH (USART_TX_vect s)) as (Hu' & Hq' & Hwf').
    { now apply isr_wf. }
    { rewrite Hq. cbn in Hlen. lia. }
    rewrite Hu', Hu, Hq, <- app_assoc. auto.
Qed.

(** X4.  Draining: after as many transmit-complete interrupts as there
    are queued bytes, all of them have been stored to UDR0 in queue
    order and the ring is empty; the next interrupt stores nothing and
    clears the sending-in-progress flag. *)
Theorem interrupts_drain_ring s :
  tx_wf s ->
  let s' := Nat.iter (length (queue s)) USART_TX_vect s in
  UDR0 s' = UDR0 s ++ queue s /\
  queue s' = [] /\
  UDR0 (USART_TX_vect s') = UDR0 s' /\
  UartSendingInProgress (USART_TX_vect s') = 0.
Proof.
  intros Hwf. cbv zeta.
  destruct (drain_queue (length (queue s)) s Hwf eq_refl) as (Hu & Hq & Hwf').
  pose proof (isr_queue _ Hwf') as H. rewrite Hq in H.
  destruct H as (H1 & _ & H3). auto.
Qed.

Lemma interrupts_drain_ring_witness :
  let s := snd (Putchar_seq [104; 105; 10] init_iuart) in
  let s' := Nat.iter (length (queue s)) USART_TX_vect s in
  UDR0 s' = UDR0 s ++ queue s /\
  queue s' = [] /\
  UDR0 (USART_TX_vect s') = UDR0 s' /\
  UartSendingInProgress (USART_TX_vect s') = 0.
Proof.
  apply (interrupts_drain_ring (snd (Putchar_seq [104; 105; 10] init_iuart))).
  repeat split; vm_compute; congruence.
Defined.

(** X8.  Buffer-full is recoverable: when a byte other than the
    line-feed is rejected with EOF on a full ring, the same call made
    after one transmit-complete interrupt returns 0. *)
Theorem retry_after_interrupt_accepted c s :
  tx_wf s -> UartSendingInProgress s <> 0 -> ring_full s -> c <> 10 ->
  fst (UART0_Putchar c s) = EOF /\
  fst (UART0_Putchar c (USART_TX_vect s)) = 0.
Proof.
  intros Hwf Hsip Hfull Hc. split.
  - now apply putchar_full_status.
  - rewrite Putchar_unfold.
    destruct (Z.eqb_spec c 10) as [|_]; [contradiction|].
    pose proof (isr_queue s Hwf) as Hq.
    pose proof (length_queue s) as Hl.
    apply (full_qlen s Hwf) in Hfull. rewrite Hfull in Hl.
    destruct (queue s) as [|x q] eqn:E; [discriminate Hl|].
    destruct Hq as (_ & Hq & Hs).
    assert (Hwf' : tx_wf (USART_TX_vect s)) by now apply isr_wf.
    apply body_room; [assumption | rewrite Hs; discriminate |].
    intros F. apply (full_qlen _ Hwf') in F.
    pose proof (length_queue (USART_TX_vect s)) as Hl'.
    rewrite Hq, F in Hl'. cbn [length] in Hl. lia.
Qed.

Lemma retry_after_interrupt_accepted_witness :
  fst (UART0_Putchar 66 ring_full_example) = EOF /\
  fst (UART0_Putchar 66 (USART_TX_vect ring_full_example)) = 0.
Proof.
  apply (retry_after_interrupt_accepted 66 ring_full_example).
  - repeat split; vm_compute; congruence.
  - vm_compute. discriminate.
  - vm_compute. reflexivity.
  - discriminate.
Defined.

End TxDrain.

Section TxInvariant.

Implicit Types (s : uart) (c : Z).

(** X5.  In every configuration reachable by any interleaving of
    [UART0_Putchar] calls and transmit-complete interrupts, the interrupt
    being serviced anywhere outside lines 76-96, the sending-in-progress
    flag is 0 or 1 and TXCIE0 is set in UCSR0B: the interrupt is
    re-enabled on every path out of the append arm.  The ring however
    need not be empty when the flag is 0: an interrupt serviced between
    the test of line 66 and the masking of line 76 clears the flag before
    the byte is queued.  From initialisation, writing 'A' and then 'B'
    with such an interrupt leaves the flag at 0 with 'B' queued, and a
    following 'C' is stored to UDR0 ahead of 'B'. *)
Theorem reachable_flag_and_interrupt_mask :
  (forall cfg,
     tx_reachable_fine cfg ->
     (UartSendingInProgress (fst cfg) = 0 \/
      UartSendingInProgress (fst cfg) = 1) /\
     Z.testbit (UCSR0B (fst cfg)) TXCIE0 = true) /\
  tx_reachable_fine race_example /\
  snd race_example = Outside /\
  UartSendingInProgress (fst race_example) = 0 /\
  UDR0 (fst race_example) = [65] /\
  queue (fst race_example) = [66] /\
  UDR0 (snd (UART0_Putchar 67 (fst race_example))) = [65; 67] /\
  queue (snd (UART0_Putchar 67 (fst race_example))) = [66].
Proof.
  split.
  - intros cfg Hreach.
    destruct (fine_reachable_inv cfg Hreach) as (_ & Hsip & Hreg).
    split; [exact Hsip|]. rewrite Hreg. reflexivity.
  - split; [apply race_example_reachable|].
    repeat split; vm_compute; reflexivity.
Qed.

Lemma reachable_flag_and_interrupt_mask_witness :
  (UartSendingInProgress (fst race_example) = 0 \/
   UartSendingInProgress (fst race_example) = 1) /\
  Z.testbit (UCSR0B (fst race_example)) TXCIE0 = true.
Proof.
  apply (proj1 reachable_flag_and_interrupt_mask race_example).
  unfold race_example. cbn [foldl].
  repeat apply fine_next. apply fine_init.
Defined.

(** A run within the budget: every call accepted, the stream extended
    by the expanded bytes. *)
Lemma putchar_seq_stream cs : forall s,
  tx_wf s -> (UartSendingInProgress s = 0 -> qlen s = 0) ->
  in_flight s + expanded_length cs <= 256 ->
  Forall (fun r => r = 0) (fst (Putchar_seq cs s)) /\
  tx_wf (snd (Putchar_seq cs s)) /\
  emitted (snd (Putchar_seq cs s)) = emitted s ++ expand cs.
Proof.
  induction cs as [|c cs IH]; intros s Hwf Hidle Hfl.
  - cbn. rewrite app_nil_r. auto.
  - cbn [expanded_length] in Hfl. cbn [expand].
    pose proof (expanded_length_nonneg cs) as Hnn.
    assert (Hstep : fst (UART0_Putchar c s) = 0 /\
                    tx_wf (snd (UART0_Putchar c s)) /\
                    in_flight (snd (UART0_Putchar c s))
                      = in_flight s + (if c =? 10 then 2 else 1) /\
                    UartSendingInProgress (snd (UART0_Putchar c s)) <> 0 /\
                    emitted (snd (UART0_Putchar c s))
                      = emitted s ++ (if c =? 10 then [13; 10] else [c])).
    { rewrite Putchar_unfold. destruct (Z.eqb_spec c 10) as [->|Hc].
      - destruct (body_accepts 13 s Hwf) as (_ & Hwf1 & Hl1 & Hs1 & He1); [lia|].
        destruct (body_accepts 10 (snd (UART0_Putchar_body 13 s)) Hwf1)
          as (R & Hwf2 & Hl2 & Hs2 & He2); [lia|].
        rewrite He2 by (intros E; contradiction).
        rewrite He1 by assumption. rewrite <- app_assoc.
        repeat split; try apply Hwf2; auto. lia.
      - destruct (body_accepts c s Hwf) as (R & Hwf1 & Hl1 & Hs1 & He1); [lia|].
        rewrite He1 by assumption.
        repeat split; try apply Hwf1; auto. }
    destruct Hstep as (R & Hwf1 & Hl1 & Hs1 & He1).
    cbn [Putchar_seq].
    destruct (UART0_Putchar c s) as [r s1]. cbn [fst snd] in *.
    destruct (IH s1 Hwf1) as (Hall & Hwf2 & He2);
      [intros E; contradiction | lia |].
    destruct (Putchar_seq cs s1) as [rs s2]. cbn [fst snd] in *.
    split; [constructor; assumption|]. split; [assumption|].
    rewrite He2, He1. now rewrite <- app_assoc.
Qed.

(** X6.  Bytes are transmitted in the order of submission: from the
    initialised driver, a run of calls whose expanded length is at most
    256 (one byte in the transmitter, 255 in the ring) is accepted
    whole, and once the transmit-complete interrupts have drained the
    ring, the bytes stored to UDR0 are exactly the submitted ones in
    order, each line-feed preceded by a carriage-return. *)
Theorem accepted_bytes_sent_in_order cs :
  expanded_length cs <= 256 ->
  Forall (fun r => r = 0) (fst (Putchar_seq cs init_iuart)) /\
  UDR0 (Nat.iter (length (queue (snd (Putchar_seq cs init_iuart))))
          USART_TX_vect (snd (Putchar_seq cs init_iuart)))
  = expand cs.
Proof.
  intros Hlen.
  destruct (putchar_seq_stream cs init_iuart init_wf) as (Hall & Hwf & Hem).
  { intros _. reflexivity. }
  { change (in_flight init_iuart) with 0. lia. }
  split; [exact Hall|].
  destruct (drain_queue _ _ Hwf eq_refl) as (Hu & _).
  rewrite Hu. exact Hem.
Qed.

Lemma accepted_bytes_sent_in_order_witness :
  Forall (fun r => r = 0) (fst (Putchar_seq [79; 75; 10; 62] init_iuart)) /\
  UDR0 (Nat.iter
          (length (queue (snd (Putchar_seq [79; 75; 10; 62] init_iuart))))
          USART_TX_vect (snd (Putchar_seq [79; 75; 10; 62] init_iuart)))
  = expand [79; 75; 10; 62].
Proof.
  apply (accepted_bytes_sent_in_order [79; 75; 10; 62]).
  vm_compute. discriminate.
Defined.

Lemma in_flight_le s : in_flight s <= 256.
Proof.
  pose proof (qlen_range s). unfold in_flight.
  destruct (UartSendingInProgress s =? 0); lia.
Qed.

Lemma putchar_seq_statuses cs : forall s,
  tx_wf s -> Forall (fun c => c <> 10) cs ->
  fst (Putchar_seq cs s)
  = replicate (Nat.min (length cs) (Z.to_nat (256 - in_flight s))) 0
    ++ replicate (length cs - Z.to_nat (256 - in_flight s)) EOF.
Proof.
  induction cs as [|c cs IH]; intros s Hwf Hcs; [reflexivity|].
  inversion Hcs as [|? ? Hc Hrest]; subst.
  cbn [Putchar_seq length]. rewrite Putchar_unfold.
  destruct (Z.eqb_spec c 10) as [|_]; [contradiction|].
  pose proof (in_flight_le s) as Hle.
  destruct (Z_le_gt_dec (in_flight s) 255) as [Hroom|Hfull].
  - destruct (body_accepts c s Hwf Hroom) as (R & Hwf1 & Hl1 & _).
    destruct (UART0_Putchar_body c s) as [r s1]. cbn [fst snd] in *.
    specialize (IH s1 Hwf1 Hrest). rewrite Hl1 in IH.
    destruct (Putchar_seq cs s1) as [rs s2]. cbn [fst] in *.
    replace (Z.to_nat (256 - in_flight s))
      with (S (Z.to_nat (256 - (in_flight s + 1)))) by lia.
    cbn [Nat.min Nat.sub replicate app]. now rewrite R, IH.
  - assert (Hq : qlen s = 255 /\ UartSendingInProgress s <> 0).
    { pose proof (qlen_range s). unfold in_flight in *.
      destruct (Z.eqb_spec (UartSendingInProgress s) 0); lia. }
    destruct Hq as [Hq Hsip].
    assert (F : ring_full s) by now apply (full_qlen s Hwf).
    destruct (body_full c s Hwf Hsip F) as (R & Hh & Ht & Hs & _ & _ & Hwf1).
    assert (Hl1 : in_flight (snd (UART0_Putchar_body c s)) = in_flight s).
    { unfold in_flight, qlen. now rewrite Hh, Ht, Hs. }
    destruct (UART0_Putchar_body c s) as [r s1]. cbn [fst snd] in *.
    specialize (IH s1 Hwf1 Hrest). rewrite Hl1 in IH.
    destruct (Putchar_seq cs s1) as [rs s2]. cbn [fst] in *.
    replace (Z.to_nat (256 - in_flight s)) with 0%nat in * by lia.
    rewrite Nat.min_0_r in *. rewrite Nat.sub_0_r in *.
    cbn [replicate app] in *. now rewrite R, IH.
Qed.

(** X7.  The capacity is exact: from the initialised driver and with
    no interrupt, of any run of calls with bytes other than the
    line-feed the first 256 return 0 (one byte goes to the transmitter,
    255 fill the ring, one slot of the 256 staying unused) and every
    later call returns EOF. *)
Theorem ring_capacity_exact cs :
  Forall (fun c => c <> 10) cs ->
  fst (Putchar_seq cs init_iuart)
  = replicate (Nat.min (length cs) 256) 0
    ++ replicate (length cs - 256) EOF.
Proof.
  intros Hcs. apply (putchar_seq_statuses cs init_iuart init_wf Hcs).
Qed.

Lemma ring_capacity_exact_witness :
  fst (Putchar_seq (replicate 258 65) init_iuart)
  = replicate (Nat.min (length (replicate 258 65)) 256) 0
    ++ replicate (length (replicate 258 65) - 256) EOF.
Proof.
  apply (ring_capacity_exact (replicate 258 65)).
  apply Forall_forall. intros x Hx.
  apply elem_of_replicate in Hx as [-> _]. discriminate.
Defined.

End TxInvariant.

(** * Further properties of the line editor *)

Section EditKeys.

Implicit Types (r : reader) (c : Z) (cp : nat).

Lemma edit_kill_word cp r :
  edit 23 cp r = Continue (fst (kill_word cp r)) (snd (kill_word cp r)).
Proof.
  unfold edit. cbn -[kill_word]. now destruct (kill_word cp r).
Qed.

Lemma edit_redraw cp r :
  edit 18 cp r = Continue cp (redraw cp (putc 13 r)).
Proof. reflexivity. Qed.

Lemma edit_backspace c cp r :
  c = 8 \/ c = 127 ->
  edit c cp r = if (0 <? cp)%nat then Continue (cp - 1) (erase r)
                else Continue cp r.
Proof. intros [->| ->]; reflexivity. Qed.

Lemma erases_S n : erases (S n) = [8; 32; 8] ++ erases n.
Proof. reflexivity. Qed.

Lemma kill_line_echo cp : forall r,
  echo (snd (kill_line cp r)) = echo r ++ erases cp.
Proof.
  induction cp as [|cp IH]; intros r; cbn [kill_line].
  - cbn. now rewrite app_nil_r.
  - rewrite IH, erase_echo, erases_S. now rewrite <- app_assoc.
Qed.

Lemma kill_word_stop cp : forall r,
  (forall j, (fst (kill_word cp r) <= j < cp)%nat -> cell (b r) j <> 32) /\
  (fst (kill_word cp r) = 0%nat \/
   cell (b r) (fst (kill_word cp r) - 1) = 32) /\
  echo (snd (kill_word cp r)) = echo r ++ erases (cp - fst (kill_word cp r)).
Proof.
  induction cp as [|cp IH]; intros r; cbn [kill_word].
  - cbn. rewrite app_nil_r. repeat split; auto. intros j Hj. lia.
  - destruct (Z.eqb_spec (cell (b r) cp) 32) as [E|E]; cbn [fst snd].
    + replace (S cp - S cp)%nat with 0%nat by lia. cbn. rewrite app_nil_r.
      split; [intros j Hj; lia|]. split; [right|reflexivity].
      now replace (cp - 0)%nat with cp by lia.
    + destruct (IH (erase r)) as (Hns & Hstop & Hecho).
      destruct (kill_word_spec cp (erase r)) as (Hle & _).
      rewrite erase_b in *.
      split; [|split; [exact Hstop|]].
      * intros j Hj. destruct (Nat.eq_dec j cp) as [->|Hne]; [exact E|].
        apply Hns. lia.
      * rewrite Hecho, erase_echo, <- app_assoc.
        replace (S cp - fst (kill_word cp (erase r)))%nat
          with (S (cp - fst (kill_word cp (erase r)))) by lia.
        now rewrite erases_S.
Qed.

Lemma redraw_echo cp r : echo (redraw cp r) = echo r ++ take cp (b r).
Proof.
  unfold redraw. generalize (take cp (b r)) as l. intros l. revert r.
  induction l as [|c l IH]; intros r; cbn [foldl].
  - now rewrite app_nil_r.
  - rewrite IH, putc_echo, <- app_assoc. reflexivity.
Qed.

(** X9.  Bytes with no meaning to the editor are dropped: a control
    byte, or a byte in 0x80-0x9f, that is not a terminator, the tab, the
    abort byte or an editing key, leaves cursor, line buffer, echo log
    and transport as they are. *)
Theorem other_control_bytes_ignored ev c cp r :
  received ev c -> ignored c ->
  getchar_iter ev cp r = Continue cp r.
Proof.
  intros Hrx (Hrange & H3 & H8 & H9 & H10 & H13 & H18 & H21 & H23).
  rewrite (iter_received ev c) by assumption.
  assert (Hnp : printable c = false).
  { unfold printable.
    destruct (Z.leb_spec 32 c), (Z.leb_spec c 126), (Z.leb_spec 160 c);
      cbn; try reflexivity; lia. }
  assert (H127 : c <> 127) by lia.
  unfold edit.
  change (ctrl 99) with 3. change (ctrl 114) with 18.
  change (ctrl 117) with 21. change (ctrl 119) with 23.
  destruct (Z.eqb_spec c 13); [contradiction|].
  destruct (Z.eqb_spec c 10); [contradiction|].
  destruct (Z.eqb_spec c 9); [contradiction|].
  rewrite Hnp.
  destruct (Z.eqb_spec c 3); [contradiction|].
  destruct (Z.eqb_spec c 8); [contradiction|].
  destruct (Z.eqb_spec c 127); [contradiction|]. cbn [orb].
  destruct (Z.eqb_spec c 18); [contradiction|].
  destruct (Z.eqb_spec c 21); [contradiction|].
  destruct (Z.eqb_spec c 23); [contradiction|].
  reflexivity.
Qed.

Lemma other_control_bytes_ignored_witness :
  getchar_iter (rx_ok 27) 5 reader_init = Continue 5 reader_init.
Proof.
  apply (other_control_bytes_ignored (rx_ok 27) 27 5 reader_init).
  - repeat split; vm_compute; congruence.
  - unfold ignored. lia.
Defined.

(** X10.  Ctrl-U (0x15) kills the whole line: the cursor returns to the
    start of the buffer, one erase sequence (backspace, space,
    backspace) is echoed per character that was before the cursor, and
    the buffer bytes themselves are left in place. *)
Theorem ctrl_u_kills_line ev cp r :
  received ev 21 ->
  exists r',
    getchar_iter ev cp r = Continue 0 r' /\
    echo r' = echo r ++ erases cp /\
    b r' = b r /\ rxp r' = rxp r.
Proof.
  intros Hrx. rewrite (iter_received ev 21) by assumption.
  rewrite edit_kill_line.
  destruct (kill_line_spec cp r) as (H0 & Hb & Hr).
  exists (snd (kill_line cp r)). rewrite H0.
  split; [reflexivity|]. split; [apply kill_line_echo|]. auto.
Qed.

Lemma ctrl_u_kills_line_witness :
  exists r',
    getchar_iter (rx_ok 21) 5
      (mkReader ([104; 101; 108; 108; 111] ++ replicate 75 0) None init_iuart [])
    = Continue 0 r' /\
    echo r' = echo (mkReader ([104; 101; 108; 108; 111] ++ replicate 75 0)
                      None init_iuart [])
              ++ erases 5 /\
    b r' = b (mkReader ([104; 101; 108; 108; 111] ++ replicate 75 0)
                None init_iuart []) /\
    rxp r' = rxp (mkReader ([104; 101; 108; 108; 111] ++ replicate 75 0)
                    None init_iuart []).
Proof.
  apply (ctrl_u_kills_line (rx_ok 21) 5
           (mkReader ([104; 101; 108; 108; 111] ++ replicate 75 0)
              None init_iuart [])).
  repeat split; vm_compute; congruence.
Defined.

(** X11.  Ctrl-W (0x17) erases backwards while the byte before the
    cursor is not a space: the new cursor is at the start of the line or
    just after a space, every byte between the new and the old cursor is
    a non-space, one erase sequence is echoed per byte passed, and the
    buffer bytes are left in place.  A word followed by a space is
    therefore not removed. *)
Theorem ctrl_w_erases_to_space ev cp r :
  received ev 23 ->
  exists cp' r',
    getchar_iter ev cp r = Continue cp' r' /\
    (cp' <= cp)%nat /\
    (forall j, (cp' <= j < cp)%nat -> cell (b r) j <> 32) /\
    (cp' = 0%nat \/ cell (b r) (cp' - 1) = 32) /\
    echo r' = echo r ++ erases (cp - cp') /\
    b r' = b r.
Proof.
  intros Hrx. rewrite (iter_received ev 23) by assumption.
  rewrite edit_kill_word.
  destruct (kill_word_spec cp r) as (Hle & Hb & _).
  destruct (kill_word_stop cp r) as (Hns & Hstop & Hecho).
  exists (fst (kill_word cp r)), (snd (kill_word cp r)).
  repeat split; auto.
Qed.

Lemma ctrl_w_erases_to_space_witness :
  exists cp' r',
    getchar_iter (rx_ok 23) 7
      (mkReader ([102; 111; 111; 32; 98; 97; 114] ++ replicate 73 0)
         None init_iuart [])
    = Continue cp' r' /\
    (cp' <= 7)%nat /\
    (forall j, (cp' <= j < 7)%nat ->
       cell (b (mkReader ([102; 111; 111; 32; 98; 97; 114] ++ replicate 73 0)
                  None init_iuart [])) j <> 32) /\
    (cp' = 0%nat \/
     cell (b (mkReader ([102; 111; 111; 32; 98; 97; 114] ++ replicate 73 0)
                None init_iuart [])) (cp' - 1) = 32) /\
    echo r' = echo (mkReader ([102; 111; 111; 32; 98; 97; 114] ++ replicate 73 0)
                      None init_iuart [])
              ++ erases (7 - cp') /\
    b r' = b (mkReader ([102; 111; 111; 32; 98; 97; 114] ++ replicate 73 0)
                None init_iuart []).
Proof.
  apply (ctrl_w_erases_to_space (rx_ok 23) 7
           (mkReader ([102; 111; 111; 32; 98; 97; 114] ++ replicate 73 0)
              None init_iuart [])).
  repeat split; vm_compute; congruence.
Defined.

(** X12.  Ctrl-R (0x12) redraws the line: a carriage-return and then
    the bytes before the cursor, in order, are echoed; cursor and line
    buffer are unchanged. *)
Theorem ctrl_r_redraws_line ev cp r :
  received ev 18 ->
  exists r',
    getchar_iter ev cp r = Continue cp r' /\
    echo r' = echo r ++ [13] ++ take cp (b r) /\
    b r' = b r /\ rxp r' = rxp r.
Proof.
  intros Hrx. rewrite (iter_received ev 18) by assumption.
  rewrite edit_redraw. exists (redraw cp (putc 13 r)).
  destruct (redraw_spec cp (putc 13 r)) as [Hb Hr].
  split; [reflexivity|].
  rewrite redraw_echo, putc_echo, putc_b, <- app_assoc. auto.
Qed.

Lemma ctrl_r_redraws_line_witness :
  exists r',
    getchar_iter (rx_ok 18) 2
      (mkReader ([104; 105] ++ replicate 78 0) None init_iuart [104; 105])
    = Continue 2 r' /\
    echo r' = echo (mkReader ([104; 105] ++ replicate 78 0) None init_iuart
                      [104; 105])
              ++ [13]
              ++ take 2 (b (mkReader ([104; 105] ++ replicate 78 0) None
                              init_iuart [104; 105])) /\
    b r' = b (mkReader ([104; 105] ++ replicate 78 0) None init_iuart
                [104; 105]) /\
    rxp r' = rxp (mkReader ([104; 105] ++ replicate 78 0) None init_iuart
                    [104; 105]).
Proof.
  apply (ctrl_r_redraws_line (rx_ok 18) 2
           (mkReader ([104; 105] ++ replicate 78 0) None init_iuart [104; 105])).
  repeat split; vm_compute; congruence.
Defined.

(** X13.  Backspace (0x08) and DEL (0x7f) erase one character when
    there is one: the cursor moves back by one and one erase sequence is
    echoed, the buffer bytes staying in place.  On an empty line they do
    nothing at all, and neither do Ctrl-U and Ctrl-W. *)
Theorem backspace_erases_one ev c cp r :
  received ev c ->
  (c = 8 \/ c = 127 ->
   (0 < cp)%nat ->
   getchar_iter ev cp r = Continue (cp - 1) (erase r) /\
   echo (erase r) = echo r ++ [8; 32; 8] /\ b (erase r) = b r) /\
  (c = 8 \/ c = 127 \/ c = 21 \/ c = 23 ->
   getchar_iter ev 0 r = Continue 0 r).
Proof.
  intros Hrx. split.
  - intros Hc Hcp. rewrite (iter_received ev c) by assumption.
    rewrite edit_backspace by assumption.
    destruct (Nat.ltb_spec 0 cp); [|lia].
    split; [reflexivity|]. split; [apply erase_echo | apply erase_b].
  - intros Hc. rewrite (iter_received ev c) by assumption.
    destruct Hc as [->|[->|[->| ->]]]; reflexivity.
Qed.

Lemma backspace_erases_one_witness :
  (127 = 8 \/ 127 = 127 ->
   (0 < 3)%nat ->
   getchar_iter (rx_ok 127) 3 reader_init
     = Continue (3 - 1) (erase reader_init) /\
   echo (erase reader_init) = echo reader_init ++ [8; 32; 8] /\
   b (erase reader_init) = b reader_init) /\
  (127 = 8 \/ 127 = 127 \/ 127 = 21 \/ 127 = 23 ->
   getchar_iter (rx_ok 127) 0 reader_init = Continue 0 reader_init).
Proof.
  apply (backspace_erases_one (rx_ok 127) 127 3 reader_init).
  repeat split; vm_compute; congruence.
Defined.

End EditKeys.

Section LineLimit.

Implicit Types (r : reader) (c : Z) (cp : nat).

(** C6.  From the start of a line, the first 79 printable bytes are
    stored in the line buffer in order and echoed; every further
    printable byte leaves buffer and cursor as they are and is answered
    with the bell 0x07.  At the limit (cursor at 79, whatever the
    keystrokes that led there) a printable byte changes nothing but the
    echo, which gains the bell, while the editing keys act as anywhere
    else: backspace and DEL erase one character, with its erase sequence
    echoed; Ctrl-U empties the line, echoing 79 erase sequences; Ctrl-W
    erases back to the start of the line or to just after a space,
    echoing one erase sequence per byte passed; Ctrl-R echoes a
    carriage-return and the 79 bytes of the line.  Once an erase has
    made room, a printable byte is stored and echoed again. *)
Theorem line_limit_bell polls l r :
  length (b r) = RX_BUFSIZE ->
  Forall2 received polls l ->
  Forall (fun c => printable c = true) l ->
  (exists r',
     getchar_loop polls 0 r = (Waiting (Nat.min (length l) 79), r', []) /\
     take (Nat.min (length l) 79) (b r') = take 79 l /\
     drop (Nat.min (length l) 79) (b r') = drop (Nat.min (length l) 79) (b r) /\
     echo r' = echo r ++ take 79 l ++ replicate (length l - 79) 7) /\
  (forall ev c r0,
     received ev c -> printable c = true ->
     getchar_iter ev 79 r0 = Continue 79 (putc 7 r0) /\
     b (putc 7 r0) = b r0 /\ echo (putc 7 r0) = echo r0 ++ [7]) /\
  (forall ev r0,
     received ev 8 \/ received ev 127 ->
     getchar_iter ev 79 r0 = Continue 78 (erase r0) /\
     echo (erase r0) = echo r0 ++ [8; 32; 8] /\
     b (erase r0) = b r0) /\
  (forall ev r0,
     received ev 21 ->
     exists r1,
       getchar_iter ev 79 r0 = Continue 0 r1 /\
       b r1 = b r0 /\
       echo r1 = echo r0 ++ erases 79) /\
  (forall ev r0,
     received ev 23 ->
     exists cp' r1,
       getchar_iter ev 79 r0 = Continue cp' r1 /\
       (cp' <= 79)%nat /\
       (forall j, (cp' <= j < 79)%nat -> cell (b r0) j <> 32) /\
       (cp' = 0%nat \/ cell (b r0) (cp' - 1) = 32) /\
       echo r1 = echo r0 ++ erases (79 - cp') /\
       b r1 = b r0) /\
  (forall ev r0,
     received ev 18 ->
     exists r1,
       getchar_iter ev 79 r0 = Continue 79 r1 /\
       echo r1 = echo r0 ++ [13] ++ take 79 (b r0) /\
       b r1 = b r0) /\
  (forall ev c r0,
     received ev c -> printable c = true ->
     getchar_iter ev 78 r0
     = Continue 79 (putc c (set_b (<[78%nat := c]> (b r0)) r0))).
Proof.
  intros Hlen Hrx Hpr.
  split; [|split; [|split; [|split; [|split; [|split]]]]].
  - destruct (collect_printables l polls 0%nat r Hlen Hrx Hpr)
      as (r' & Hloop & _ & Ht & Hd & He); [lia|].
    exists r'. cbn [Nat.add] in *. rewrite take_0 in Ht. cbn [app] in Ht.
    replace (79 - 0)%nat with 79%nat in * by lia.
    repeat split; assumption.
  - intros ev c r0 Hev Hc. rewrite (iter_received ev c) by assumption.
    rewrite edit_printable by assumption. repeat split.
  - intros ev r0 H. split; [|split; [apply erase_echo | apply erase_b]].
    destruct H as [H|H]; rewrite (iter_received ev _ _ _ H); reflexivity.
  - intros ev r0 Hev. rewrite (iter_received ev 21) by assumption.
    exists (snd (kill_line 79 r0)).
    destruct (kill_line_spec 79 r0) as (H0 & Hb & _).
    split; [rewrite edit_kill_line, <- H0; reflexivity|].
    split; [exact Hb | apply kill_line_echo].
  - intros ev r0 Hev. rewrite (iter_received ev 23) by assumption.
    rewrite edit_kill_word.
    destruct (kill_word_spec 79 r0) as (Hle & Hb & _).
    destruct (kill_word_stop 79 r0) as (Hns & Hstop & Hecho).
    exists (fst (kill_word 79 r0)), (snd (kill_word 79 r0)).
    split; [reflexivity|]. split; [exact Hle|]. split; [exact Hns|].
    split; [exact Hstop|]. split; [exact Hecho | exact Hb].
  - intros ev r0 Hev. rewrite (iter_received ev 18) by assumption.
    rewrite edit_redraw. exists (redraw 79 (putc 13 r0)).
    destruct (redraw_spec 79 (putc 13 r0)) as [Hb _].
    split; [reflexivity|]. split; [|exact Hb].
    rewrite redraw_echo, putc_echo, putc_b, <- app_assoc. reflexivity.
  - intros ev c r0 Hev Hc. rewrite (iter_received ev c) by assumption.
    now rewrite edit_printable by assumption.
Qed.

Lemma line_limit_bell_witness :
  exists r',
    getchar_loop (rx_ok <$> replicate 81 120) 0 reader_init
      = (Waiting (Nat.min (length (replicate 81 120)) 79), r', []) /\
    take (Nat.min (length (replicate 81 120)) 79) (b r')
      = take 79 (replicate 81 120) /\
    drop (Nat.min (length (replicate 81 120)) 79) (b r')
      = drop (Nat.min (length (replicate 81 120)) 79) (b reader_init) /\
    echo r' = echo reader_init ++ take 79 (replicate 81 120)
                ++ replicate (length (replicate 81 120) - 79) 7.
Proof.
  apply (line_limit_bell (rx_ok <$> replicate 81 120) (replicate 81 120)
           reader_init).
  - reflexivity.
  - apply Forall2_fmap_l, Forall_Forall2_diag, Forall_forall.
    intros x Hx. apply elem_of_replicate in Hx as [-> _].
    repeat split; vm_compute; congruence.
  - apply Forall_forall. intros x Hx.
    apply elem_of_replicate in Hx as [-> _]. reflexivity.
Defined.

End LineLimit.

Section TypedLines.

Implicit Types (r : reader) (c : Z) (cp : nat).

Lemma text_printable c : text c -> 32 <= normalize_tab c.
Proof. intros H. now apply printable_ge. Qed.

Lemma edit_text c cp r :
  text c ->
  edit c cp r =
    if (cp =? RX_BUFSIZE - 1)%nat then Continue cp (putc 7 r)
    else Continue (S cp)
           (putc (normalize_tab c)
              (set_b (<[cp := normalize_tab c]> (b r)) r)).
Proof.
  intros Ht. unfold text, normalize_tab in *.
  destruct (Z.eqb_spec c 9) as [->|Hne]; [reflexivity|].
  now apply edit_printable.
Qed.

Lemma edit_terminator c cp r :
  c = 10 \/ c = 13 ->
  edit c cp r
  = Break (set_rxp (Some 0%nat) (putc 10 (set_b (<[cp := 10]> (b r)) r))).
Proof. intros [->| ->]; reflexivity. Qed.

(** Text that fits before slot 79 is stored from the cursor on, tabs as
    spaces, and echoed. *)
Lemma collect_text l : forall polls cp r,
  length (b r) = RX_BUFSIZE ->
  Forall2 received polls l ->
  Forall text l ->
  (cp + length l <= 79)%nat ->
  exists r',
    getchar_loop polls cp r = (Waiting (cp + length l), r', []) /\
    length (b r') = RX_BUFSIZE /\
    rxp r' = rxp r /\
    take (cp + length l) (b r') = take cp (b r) ++ (normalize_tab <$> l) /\
    echo r' = echo r ++ (normalize_tab <$> l).
Proof.
  induction l as [|c l IH]; intros polls cp r Hlen Hrx Htx Hfit.
  - inversion Hrx; subst. exists r. cbn [getchar_loop length fmap list_fmap].
    replace (cp + 0)%nat with cp by lia. rewrite !app_nil_r. auto.
  - inversion Hrx as [|ev ? polls' ? Hev Hrest]; subst.
    inversion Htx as [|? ? Hc Hl]; subst. cbn [length] in Hfit.
    rewrite (loop_received ev c) by assumption.
    rewrite edit_text by assumption.
    destruct (Nat.eqb_spec cp (RX_BUFSIZE - 1)) as [E|_];
      [unfold RX_BUFSIZE in E; cbn in E; lia|].
    destruct (IH polls' (S cp)
                (putc (normalize_tab c)
                   (set_b (<[cp := normalize_tab c]> (b r)) r)))
      as (r' & Hloop & Hlen' & Hrxp & Ht & He); auto.
    { cbn. rewrite length_insert. exact Hlen. }
    { lia. }
    exists r'. cbn [length].
    replace (cp + S (length l))%nat with (S cp + length l)%nat by lia.
    rewrite putc_b in Ht. cbn [b set_b] in Ht. rewrite putc_echo in He.
    cbn [echo set_b] in He.
    split; [exact Hloop|]. split; [exact Hlen'|]. split; [exact Hrxp|].
    split.
    + rewrite Ht.
      rewrite (take_S_r _ cp (normalize_tab c))
        by (apply list_lookup_insert_eq; rewrite Hlen; unfold RX_BUFSIZE; lia).
      rewrite take_insert_ge by lia. rewrite <- app_assoc. reflexivity.
    + rewrite He, <- app_assoc. reflexivity.
Qed.

(** The call that completes a line and the calls that follow it read
    the same buffer. *)
Lemma getchar_n_after_break k polls r r1 rest i :
  rxp r = None ->
  getchar_loop polls 0 r = (Broke, r1, rest) ->
  rxp r1 = Some i ->
  getchar_n (S k) polls r = getchar_n (S k) rest r1.
Proof.
  intros Hrxp Hloop Hr1. cbn [getchar_n]. unfold uart_getchar.
  now rewrite Hrxp, Hloop, Hr1.
Qed.

(** A line of text that fits, followed by a terminator. *)
Lemma typed_line polls l ev rest r :
  rxp r = None -> length (b r) = RX_BUFSIZE ->
  Forall2 received polls l -> Forall text l -> (length l <= 79)%nat ->
  received ev 10 \/ received ev 13 ->
  exists r',
    getchar_n (S (length l)) (polls ++ ev :: rest) r
      = ((normalize_tab <$> l) ++ [10], r', rest) /\
    rxp r' = None /\
    length (b r') = RX_BUFSIZE /\
    echo r' = echo r ++ (normalize_tab <$> l) ++ [10].
Proof.
  intros Hrxp Hlen Hrx Htx Hfit Hterm.
  destruct (collect_text l polls 0%nat r Hlen Hrx Htx)
    as (r1 & Hloop1 & Hlen1 & Hrxp1 & Ht1 & He1); [lia|].
  cbn [Nat.add] in *. rewrite take_0 in Ht1. cbn [app] in Ht1.
  set (n := length l) in *.
  set (r2 := set_rxp (Some 0%nat) (putc 10 (set_b (<[n := 10]> (b r1)) r1))).
  assert (Hloop : getchar_loop (polls ++ ev :: rest) 0 r = (Broke, r2, rest)).
  { rewrite (loop_app polls (ev :: rest) 0 r n r1 Hloop1).
    destruct Hterm as [H|H]; rewrite (loop_received ev _ _ _ _ H);
      rewrite edit_terminator by auto; reflexivity. }
  assert (Hb2 : b r2 = <[n := 10]> (b r1)) by reflexivity.
  assert (Hn : (n < length (b r1))%nat)
    by (rewrite Hlen1; unfold RX_BUFSIZE; lia).
  assert (Hlf : b r2 !! n = Some 10)
    by (rewrite Hb2; now apply list_lookup_insert_eq).
  assert (Ht2 : take n (b r2) = normalize_tab <$> l)
    by (rewrite Hb2, take_insert_ge by lia; exact Ht1).
  assert (Hbody : forall j, (0 <= j < 0 + n)%nat -> cell (b r2) j <> 10).
  { intros j Hj. unfold cell.
    rewrite <- (lookup_take_lt (b r2) n j) by lia. rewrite Ht2.
    rewrite list_lookup_fmap.
    destruct (l !! j) as [x|] eqn:Hx; cbn.
    - pose proof (text_printable x) as Hp.
      rewrite Forall_forall in Htx.
      specialize (Hp (Htx x (list_elem_of_lookup_2 _ _ _ Hx))). lia.
    - apply lookup_ge_None in Hx. unfold n in Hj. lia. }
  exists (set_rxp None r2).
  rewrite (getchar_n_after_break n _ r r2 rest 0%nat Hrxp Hloop eq_refl).
  rewrite (drain_line n 0%nat r2 rest eq_refl Hlf Hbody).
  rewrite drop_0, (take_S_r _ _ _ Hlf), Ht2.
  split; [reflexivity|]. split; [reflexivity|]. split.
  - cbn. rewrite length_insert. exact Hlen1.
  - cbn. rewrite He1, <- app_assoc. reflexivity.
Qed.

(** X14.  Typing a line: when no line is pending and at most 79 text
    bytes (printable bytes and tabs) arrive without error, followed by a
    carriage-return or a line-feed, the next calls of [uart_getchar]
    return exactly those bytes in order, each tab as a space, and then a
    line-feed whichever terminator was typed; the polls after the
    terminator are left for later, the same bytes have been echoed, and
    the reader is back to collecting. *)
Theorem typed_line_returned polls l ev rest r :
  rxp r = None -> length (b r) = RX_BUFSIZE ->
  Forall2 received polls l -> Forall text l -> (length l <= 79)%nat ->
  received ev 10 \/ received ev 13 ->
  exists r',
    getchar_n (S (length l)) (polls ++ ev :: rest) r
      = ((normalize_tab <$> l) ++ [10], r', rest) /\
    rxp r' = None /\
    length (b r') = RX_BUFSIZE /\
    echo r' = echo r ++ (normalize_tab <$> l) ++ [10].
Proof.
  intros Hrxp Hlen Hrx Htx Hfit Hterm.
  destruct (typed_line polls l ev rest r Hrxp Hlen Hrx Htx Hfit Hterm)
    as (r' & H). exists r'. exact H.
Qed.

Lemma typed_line_returned_witness :
  exists r',
    getchar_n (S (length [97; 9; 98]))
      ((rx_ok <$> [97; 9; 98]) ++ rx_ok 13 :: [rx_ok 99]) reader_init
      = ((normalize_tab <$> [97; 9; 98]) ++ [10], r', [rx_ok 99]) /\
    rxp r' = None /\
    length (b r') = RX_BUFSIZE /\
    echo r' = echo reader_init ++ (normalize_tab <$> [97; 9; 98]) ++ [10].
Proof.
  apply (typed_line_returned (rx_ok <$> [97; 9; 98]) [97; 9; 98] (rx_ok 13)
           [rx_ok 99] reader_init).
  - reflexivity.
  - reflexivity.
  - repeat constructor; vm_compute; congruence.
  - repeat constructor.
  - cbn. lia.
  - right. repeat split; vm_compute; congruence.
Defined.

(** X15.  An error or an abort discards the partial line: if, with some
    input already collected, a framing error, an overrun or the abort
    byte 0x03 arrives, the call returns a negative code and consumes
    nothing further; a line typed afterwards is returned exactly as
    typed, with no byte of the abandoned input in it. *)
Theorem abort_discards_partial_line pre cp1 r1 eva polls l ev rest r :
  rxp r = None -> length (b r) = RX_BUFSIZE ->
  getchar_loop pre 0 r = (Waiting cp1, r1, []) ->
  received eva 3 \/ framing_error eva \/ overrun_error eva ->
  Forall2 received polls l -> Forall text l -> (length l <= 79)%nat ->
  received ev 10 \/ received ev 13 ->
  exists v,
    v < 0 /\
    uart_getchar (pre ++ eva :: polls ++ ev :: rest) r
      = (Returned v, r1, polls ++ ev :: rest) /\
    fst (fst (getchar_n (S (length l)) (polls ++ ev :: rest) r1))
      = (normalize_tab <$> l) ++ [10].
Proof.
  intros Hrxp Hlen Hpre Herr Hrx Htx Hfit Hterm.
  assert (Hc : collecting 0 r).
  { repeat split; auto; [unfold RX_BUFSIZE; lia | intros i Hi; lia]. }
  pose proof (loop_exits pre 0%nat r _ r1 [] Hc Hpre) as (Hlen1 & _ & Hrxp1 & _).
  assert (Hline : fst (fst (getchar_n (S (length l)) (polls ++ ev :: rest) r1))
                  = (normalize_tab <$> l) ++ [10]).
  { destruct (typed_line polls l ev rest r1 Hrxp1 Hlen1 Hrx Htx Hfit Hterm)
      as (r' & H & _). now rewrite H. }
  assert (Hleft : exists v, v < 0 /\
            getchar_loop (eva :: polls ++ ev :: rest) cp1 r1
            = (Left v, r1, polls ++ ev :: rest)).
  { destruct Herr as [H|[(Hrxc & Hfe)|(Hrxc & Hfe & Hdor)]].
    - exists (-1). split; [lia|]. now rewrite (loop_received eva 3).
    - exists _FDEV_EOF. split; [reflexivity|].
      cbn [getchar_loop]. unfold getchar_iter.
      destruct (Z.eqb_spec (Z.land (ev_UCSR0A eva) (_BV RXC0)) 0); [contradiction|].
      destruct (Z.eqb_spec (Z.land (ev_UCSR0A eva) (_BV FE0)) 0); [contradiction|].
      reflexivity.
    - exists _FDEV_ERR. split; [reflexivity|].
      cbn [getchar_loop]. unfold getchar_iter.
      destruct (Z.eqb_spec (Z.land (ev_UCSR0A eva) (_BV RXC0)) 0); [contradiction|].
      rewrite Hfe.
      destruct (Z.eqb_spec (Z.land (ev_UCSR0A eva) (_BV DOR0)) 0); [contradiction|].
      reflexivity. }
  destruct Hleft as (v & Hv & Hloop). exists v.
  split; [exact Hv|]. split; [|exact Hline].
  unfold uart_getchar. rewrite Hrxp.
  now rewrite (loop_app pre _ 0 r cp1 r1 Hpre), Hloop.
Qed.

Lemma abort_discards_partial_line_witness :
  exists v,
    v < 0 /\
    uart_getchar
      ((rx_ok <$> [120; 121]) ++ rx_ok 3 :: (rx_ok <$> [111; 107]) ++ rx_ok 10 :: [])
      reader_init
      = (Returned v,
         snd (fst (getchar_loop (rx_ok <$> [120; 121]) 0 reader_init)),
         (rx_ok <$> [111; 107]) ++ rx_ok 10 :: []) /\
    fst (fst (getchar_n (S (length [111; 107]))
                ((rx_ok <$> [111; 107]) ++ rx_ok 10 :: [])
                (snd (fst (getchar_loop (rx_ok <$> [120; 121]) 0 reader_init)))))
      = (normalize_tab <$> [111; 107]) ++ [10].
Proof.
  apply (abort_discards_partial_line (rx_ok <$> [120; 121]) 2
           (snd (fst (getchar_loop (rx_ok <$> [120; 121]) 0 reader_init)))
           (rx_ok 3) (rx_ok <$> [111; 107]) [111; 107] (rx_ok 10) []
           reader_init).
  - reflexivity.
  - reflexivity.
  - vm_compute. reflexivity.
  - left. repeat split; vm_compute; congruence.
  - repeat constructor; vm_compute; congruence.
  - repeat constructor.
  - cbn. lia.
  - left. repeat split; vm_compute; congruence.
Defined.

End TypedLines.

Section ReaderWaits.

Implicit Types (r : reader) (c : Z) (cp : nat).

Lemma edit_return_abort c cp r v r' :
  edit c cp r = Return v r' -> c = 3 /\ r' = r.
Proof.
  unfold edit. change (ctrl 99) with 3.
  destruct (Z.eqb_spec c 13) as [->|H13]; [discriminate|].
  destruct (Z.eqb_spec c 10) as [->|H10]; [discriminate|].
  destruct (Z.eqb_spec c 9) as [->|H9];
    [change (printable 32) with true; cbv iota;
     destruct (_ =? _)%nat; discriminate|].
  destruct (printable c); [destruct (_ =? _)%nat; discriminate|].
  destruct (Z.eqb_spec c 3) as [->|H3]; [intros H; inversion H; auto|].
  destruct (_ || _); [destruct (0 <? cp)%nat; discriminate|].
  destruct (_ =? ctrl 114); [discriminate|].
  destruct (_ =? ctrl 117); [destruct (kill_line cp r); discriminate|].
  destruct (_ =? ctrl 119); [destruct (kill_word cp r); discriminate|].
  discriminate.
Qed.

Lemma edit_continue c cp r :
  c <> 10 -> c <> 13 -> c <> 3 ->
  exists cp' r', edit c cp r = Continue cp' r'.
Proof.
  intros H10 H13 H3. destruct (edit c cp r) as [cp' r'|r'|v r'] eqn:E.
  - eauto.
  - apply edit_break in E. lia.
  - apply edit_return_abort in E. lia.
Qed.

Lemma loop_quiet polls : forall cp r,
  Forall quiet polls ->
  exists cp' r', getchar_loop polls cp r = (Waiting cp', r', []).
Proof.
  induction polls as [|ev polls IH]; intros cp r Hq; [cbn; eauto|].
  inversion Hq as [|? ? Hev Hrest]; subst. cbn [getchar_loop].
  destruct (Z.eqb_spec (Z.land (ev_UCSR0A ev) (_BV RXC0)) 0) as [E|E];
    [now apply IH|].
  destruct Hev as [Hev|(Hfe & Hdor & H10 & H13 & H3)]; [contradiction|].
  unfold getchar_iter. rewrite Hfe, Hdor. cbn [negb Z.eqb].
  destruct (edit_continue (ev_ReceivedByte ev mod 256) cp r H10 H13 H3)
    as (cp' & r' & Hed).
  rewrite Hed. now apply IH.
Qed.

(** X16.  The call blocks until something ends the line: while every
    poll either finds nothing received or delivers, without error, a
    byte that is neither a carriage-return, a line-feed nor the abort
    byte 0x03, a call made with no line pending does not return, however
    many bytes have been typed. *)
Theorem waits_without_terminator polls r :
  rxp r = None -> Forall quiet polls ->
  exists cp r', uart_getchar polls r = (Blocked cp, r', []).
Proof.
  intros Hrxp Hq. destruct (loop_quiet polls 0%nat r Hq) as (cp & r' & H).
  exists cp, r'. unfold uart_getchar. now rewrite Hrxp, H.
Qed.

Lemma waits_without_terminator_witness :
  exists cp r',
    uart_getchar [rx_ok 104; mkRx 0 0; rx_ok 8; rx_ok 105; rx_ok 21]
      reader_init
    = (Blocked cp, r', []).
Proof.
  apply (waits_without_terminator
           [rx_ok 104; mkRx 0 0; rx_ok 8; rx_ok 105; rx_ok 21] reader_init).
  - reflexivity.
  - repeat match goal with
           | |- Forall _ (_ :: _) => constructor
           | |- Forall _ [] => constructor
           end;
      solve [ left; reflexivity
            | right; repeat split; vm_compute; congruence ].
Defined.

End ReaderWaits.

Section ReaderEcho.

Implicit Types (r : reader) (c : Z) (cp : nat).

Lemma Putchar_seq_app l1 : forall l2 s,
  snd (Putchar_seq (l1 ++ l2) s)
  = snd (Putchar_seq l2 (snd (Putchar_seq l1 s))).
Proof.
  induction l1 as [|c l1 IH]; intros l2 s; [reflexivity|].
  cbn [app Putchar_seq]. destruct (UART0_Putchar c s) as [st s1].
  specialize (IH l2 s1).
  destruct (Putchar_seq (l1 ++ l2) s1) as [rs s2].
  destruct (Putchar_seq l1 s1) as [rs1 s3]. exact IH.
Qed.

Lemma echoed_refl r : echoed r r.
Proof. exists []. now rewrite app_nil_r. Qed.

Lemma echoed_eq r r' : echo r' = echo r -> tx r' = tx r -> echoed r r'.
Proof. intros He Ht. exists []. now rewrite app_nil_r, He, Ht. Qed.

Lemma echoed_trans r1 r2 r3 : echoed r1 r2 -> echoed r2 r3 -> echoed r1 r3.
Proof.
  intros (l1 & He1 & Ht1) (l2 & He2 & Ht2). exists (l1 ++ l2).
  rewrite He2, He1, Ht2, Ht1, Putchar_seq_app. now rewrite app_assoc.
Qed.

Lemma echoed_putc c r : echoed r (putc c r).
Proof.
  exists [c]. split; [reflexivity|]. cbn [Putchar_seq tx putc].
  now destruct (UART0_Putchar c (tx r)).
Qed.

Lemma echoed_erase r : echoed r (erase r).
Proof.
  unfold erase.
  eapply echoed_trans; [apply echoed_putc|].
  eapply echoed_trans; apply echoed_putc.
Qed.

Lemma echoed_kill_line cp : forall r, echoed r (snd (kill_line cp r)).
Proof.
  induction cp as [|cp IH]; intros r; cbn [kill_line]; [apply echoed_refl|].
  eapply echoed_trans; [apply echoed_erase | apply IH].
Qed.

Lemma echoed_kill_word cp : forall r, echoed r (snd (kill_word cp r)).
Proof.
  induction cp as [|cp IH]; intros r; cbn [kill_word]; [apply echoed_refl|].
  destruct (_ =? 32); [apply echoed_refl|].
  eapply echoed_trans; [apply echoed_erase | apply IH].
Qed.

Lemma echoed_redraw cp r : echoed r (redraw cp r).
Proof.
  unfold redraw. generalize (take cp (b r)) as l. intros l. revert r.
  induction l as [|c l IH]; intros r; cbn [foldl]; [apply echoed_refl|].
  eapply echoed_trans; [apply echoed_putc | apply IH].
Qed.

Lemma echoed_edit c cp r :
  match edit c cp r with
  | Continue _ r' | Break r' | Return _ r' => echoed r r'
  end.
Proof.
  unfold edit.
  destruct (_ =? 10).
  { eapply echoed_trans; [|apply echoed_eq; reflexivity].
    eapply echoed_trans; [|apply echoed_putc]. now apply echoed_eq. }
  destruct (printable _).
  { destruct (_ =? _)%nat; [apply echoed_putc|].
    eapply echoed_trans; [|apply echoed_putc]. now apply echoed_eq. }
  destruct (_ =? ctrl 99); [apply echoed_refl|].
  destruct (_ || _).
  { destruct (0 <? cp)%nat; [apply echoed_erase | apply echoed_refl]. }
  destruct (_ =? ctrl 114).
  { eapply echoed_trans; [apply echoed_putc | apply echoed_redraw]. }
  destruct (_ =? ctrl 117).
  { pose proof (echoed_kill_line cp r) as H.
    now destruct (kill_line cp r). }
  destruct (_ =? ctrl 119).
  { pose proof (echoed_kill_word cp r) as H.
    now destruct (kill_word cp r). }
  apply echoed_refl.
Qed.

Lemma echoed_loop polls : forall cp r,
  echoed r (snd (fst (getchar_loop polls cp r))).
Proof.
  induction polls as [|ev polls IH]; intros cp r; cbn [getchar_loop];
    [apply echoed_refl|].
  destruct (_ =? 0); [apply IH|].
  unfold getchar_iter.
  destruct (negb _); [apply echoed_refl|].
  destruct (negb _); [apply echoed_refl|].
  pose proof (echoed_edit (ev_ReceivedByte ev mod 256) cp r) as H.
  destruct (edit (ev_ReceivedByte ev mod 256) cp r) as [cp' r'|r'|v r'];
    cbn [fst snd]; [|exact H|exact H].
  eapply echoed_trans; [exact H | apply IH].
Qed.

Lemma echoed_next_char r : echoed r (snd (next_char r)).
Proof.
  unfold next_char. destruct (rxp r); [|apply echoed_refl].
  destruct (_ =? 10); now apply echoed_eq.
Qed.

(** X17.  All that a call of [uart_getchar] does to the transmit side
    is to call [UART0_Putchar] on the bytes it echoes: the transport
    state after the call is the one reached from the state before by one
    [UART0_Putchar] per byte the echo log has gained, in that order.  A
    call that drains a pending line echoes nothing. *)
Theorem reader_only_echoes polls r :
  (exists l,
     echo (snd (fst (uart_getchar polls r))) = echo r ++ l /\
     tx (snd (fst (uart_getchar polls r))) = snd (Putchar_seq l (tx r))) /\
  (rxp r <> None ->
   echo (snd (fst (uart_getchar polls r))) = echo r /\
   tx (snd (fst (uart_getchar polls r))) = tx r).
Proof.
  split.
  - change (echoed r (snd (fst (uart_getchar polls r)))).
    unfold uart_getchar. destruct (rxp r) eqn:Hrxp.
    + pose proof (echoed_next_char r) as H.
      now destruct (next_char r).
    + pose proof (echoed_loop polls 0%nat r) as H.
      destruct (getchar_loop polls 0 r) as [[ex r1] rest]. cbn [fst snd] in H.
      destruct ex; cbn [fst snd]; try exact H.
      pose proof (echoed_next_char r1) as H1.
      destruct (next_char r1). cbn [fst snd] in *.
      eapply echoed_trans; eassumption.
  - intros Hrxp. unfold uart_getchar, next_char.
    destruct (rxp r); [|contradiction].
    destruct (_ =? 10); auto.
Qed.

End ReaderEcho.

Section ReaderBounds.

Implicit Types (r : reader) (c : Z) (cp : nat).

Lemma collecting_0 r :
  length (b r) = RX_BUFSIZE -> rxp r = None -> collecting 0 r.
Proof.
  intros Hlen Hrxp. repeat split; auto; [unfold RX_BUFSIZE; lia|].
  intros i Hi. lia.
Qed.

Lemma line_ready_inv n r : line_ready n r -> reader_inv r.
Proof.
  intros (Hn & Hlen & Hrxp & Hlf & Hpr). split; [exact Hlen|].
  rewrite Hrxp. exists n. split; [lia|]. split; [exact Hlf|].
  intros j Hj. specialize (Hpr j). intros E. rewrite E in Hpr.
  discriminate Hpr. lia.
Qed.

(** Reading through a valid [rxp] stays inside the line. *)
Lemma next_char_inv r i :
  reader_inv r -> rxp r = Some i ->
  (i < RX_BUFSIZE)%nat /\
  fst (next_char r) = Returned (cell (b r) i) /\
  reader_inv (snd (next_char r)).
Proof.
  intros (Hlen & Hinv) Hrxp. rewrite Hrxp in Hinv.
  destruct Hinv as (n & Hn & Hlf & Hbody).
  unfold next_char. rewrite Hrxp. unfold RX_BUFSIZE in *. cbn in Hn.
  split; [lia|].
  destruct (Z.eqb_spec (cell (b r) i) 10) as [E|E]; cbn [fst snd].
  - split; [reflexivity|]. split; [exact Hlen | exact I].
  - split; [reflexivity|]. split; [exact Hlen|]. cbn [rxp set_rxp b].
    assert (i <> n).
    { intros ->. apply E. now apply cell_lookup. }
    exists n. split; [cbn; lia|]. split; [exact Hlf|].
    intros j Hj. apply Hbody. lia.
Qed.

(** A return from inside the loop leaves the statics of a collecting
    reader as they should be. *)
Lemma loop_left_state polls : forall cp r v r1 rest,
  collecting cp r ->
  getchar_loop polls cp r = (Left v, r1, rest) ->
  length (b r1) = RX_BUFSIZE /\ rxp r1 = None.
Proof.
  induction polls as [|ev polls IH]; intros cp r v r1 rest Hc Hloop;
    [discriminate Hloop|].
  cbn [getchar_loop] in Hloop.
  destruct (_ =? 0); [now apply (IH cp r v r1 rest)|].
  destruct (iter_cases ev cp r) as [(v0 & _ & Hit)|(_ & _ & Hit)];
    rewrite Hit in Hloop.
  - inversion Hloop; subst. destruct Hc as (Hlen & _ & Hrxp & _). auto.
  - pose proof (edit_collecting (ev_ReceivedByte ev mod 256) cp r Hc) as Hinv.
    destruct (edit (ev_ReceivedByte ev mod 256) cp r)
      as [cp' r'|r'|v' r'] eqn:Hed.
    + now apply (IH cp' r' v r1 rest).
    + discriminate Hloop.
    + inversion Hloop; subst. apply edit_return_abort in Hed as [_ ->].
      destruct Hc as (Hlen & _ & Hrxp & _). auto.
Qed.

(** X18.  The reader stays within its line buffer: if the buffer has
    its 80 bytes and [rxp] is null or points at or before a line-feed
    inside the buffer, then after a call of [uart_getchar], whatever the
    polls and however the call ends, the same holds again, and no null
    pointer has been read.  A call made with a line pending returns the
    byte under [rxp], which lies inside the buffer, and consumes no
    poll. *)
Theorem reader_stays_in_bounds polls r :
  reader_inv r ->
  reader_inv (snd (fst (uart_getchar polls r))) /\
  fst (fst (uart_getchar polls r)) <> Fault /\
  (forall i, rxp r = Some i ->
     (i < RX_BUFSIZE)%nat /\
     uart_getchar polls r
     = (Returned (cell (b r) i), snd (next_char r), polls)).
Proof.
  intros Hinv. unfold uart_getchar.
  destruct (rxp r) as [i|] eqn:Hrxp.
  - destruct (next_char_inv r i Hinv Hrxp) as (Hi & Hres & Hinv').
    destruct (next_char r) as [res r']. cbn [fst snd] in *. subst res.
    split; [exact Hinv'|]. split; [discriminate|].
    intros i' Hi'. inversion Hi'; subst. auto.
  - destruct Hinv as (Hlen & _).
    pose proof (collecting_0 r Hlen Hrxp) as Hc.
    destruct (getchar_loop polls 0 r) as [[ex r1] rest] eqn:Hloop.
    pose proof (loop_exits polls 0%nat r ex r1 rest Hc Hloop) as Hex.
    destruct ex as [|v|cp]; cbn [fst snd].
    + destruct Hex as ((n & Hready) & _).
      pose proof (line_ready_inv n r1 Hready) as Hinv1.
      destruct Hready as (_ & _ & Hr1 & _).
      destruct (next_char_inv r1 0%nat Hinv1 Hr1) as (_ & Hres & Hinv').
      destruct (next_char r1) as [res r']. cbn [fst snd] in *. subst res.
      split; [exact Hinv'|]. split; [discriminate|]. intros i Hi. discriminate Hi.
    + destruct (loop_left_state polls 0%nat r v r1 rest Hc Hloop) as (Hl1 & Hr1).
      split; [split; [exact Hl1 | now rewrite Hr1]|].
      split; [discriminate|]. intros i Hi. discriminate Hi.
    + destruct Hex as (Hl1 & _ & Hr1 & _).
      split; [split; [exact Hl1 | now rewrite Hr1]|].
      split; [discriminate|]. intros i Hi. discriminate Hi.
Qed.

Lemma reader_stays_in_bounds_witness :
  let r := snd (fst (uart_getchar (rx_ok <$> [104; 105; 13]) reader_init)) in
  reader_inv (snd (fst (uart_getchar [] r))) /\
  fst (fst (uart_getchar [] r)) <> Fault /\
  (forall i, rxp r = Some i ->
     (i < RX_BUFSIZE)%nat /\
     uart_getchar [] r = (Returned (cell (b r) i), snd (next_char r), [])).
Proof.
  apply (reader_stays_in_bounds []
           (snd (fst (uart_getchar (rx_ok <$> [104; 105; 13]) reader_init)))).
  split; [reflexivity|].
  exists 2%nat. split; [vm_compute; lia|]. split; [reflexivity|].
  intros j Hj. assert (j = 1%nat) as -> by (vm_compute in Hj; lia).
  vm_compute. discriminate.
Defined.

End ReaderBounds.

(** * The baud-rate divisor loaded by [init_iuart] *)

Section Baud.

(** X19.  [init_iuart] loads the divisor correctly for every clock it
    can serve: for a clock frequency of at least 153600 Hz (16 x 9600)
    that fits an unsigned long, the bytes stored to UBRR0H and UBRR0L
    are the high and the low byte of F_CPU / 153600 - 1.  Below 153600 Hz
    the subtraction wraps around and both registers receive 0xff. *)
Theorem init_loads_baud_divisor F_CPU :
  0 <= F_CPU < 2 ^ 32 ->
  (153600 <= F_CPU ->
   init_UBRR0H F_CPU * 256 + init_UBRR0L F_CPU = F_CPU / 153600 - 1) /\
  (F_CPU < 153600 ->
   init_UBRR0H F_CPU = 255 /\ init_UBRR0L F_CPU = 255).
Proof.
  intros Hrange. unfold init_UBRR0H, init_UBRR0L, BAUD_PRESCALE, USART_BAUDRATE.
  rewrite Z.shiftr_div_pow2 by lia.
  change (2 ^ 32) with 4294967296 in *. change (2 ^ 8) with 256.
  change ((9600 * 16) mod 4294967296) with 153600.
  rewrite (Z.mod_small F_CPU) by lia.
  split; intros H.
  - assert (Hq : 1 <= F_CPU / 153600 < 65536) by lia.
    rewrite (Z.mod_small (F_CPU / 153600 - 1)) by lia. lia.
  - rewrite (Z.div_small F_CPU) by lia.
    split; reflexivity.
Qed.

Lemma init_loads_baud_divisor_witness :
  (153600 <= 16000000 ->
   init_UBRR0H 16000000 * 256 + init_UBRR0L 16000000
   = 16000000 / 153600 - 1) /\
  (16000000 < 153600 ->
   init_UBRR0H 16000000 = 255 /\ init_UBRR0L 16000000 = 255).
Proof.
  apply (init_loads_baud_divisor 16000000).
  vm_compute. split; [discriminate | reflexivity].
Defined.

End Baud.
